(** * rr fast-forward engine: a shallow embedding of [src/fast_forward.cc]

    The development follows the source file top to bottom:
    the instruction buffer and the string-instruction mini-decoder, the
    address arithmetic of the watchpoint bounder, the tracee ([Task]) and its
    address space, and finally [fast_forward_through_instruction] itself,
    written in a small state-and-abort monad.  The theorems come last. *)

From Stdlib Require Import ZArith List Bool Lia.
Import ListNotations.
Local Open Scope Z_scope.

(* ================================================================== *)
(** * Machine integers *)

(** [uintptr_t] and [remote_ptr<T>] of a 64-bit build: values are kept in
    [Z] and every arithmetic result is reduced modulo [2^64]. *)
Definition uintptr_bits : Z := 64.
Definition uintptr_modulus : Z := 2 ^ uintptr_bits.
Definition wrap (z : Z) : Z := z mod uintptr_modulus.

Definition uadd (a b : Z) : Z := wrap (a + b).
Definition usub (a b : Z) : Z := wrap (a - b).
Definition umul (a b : Z) : Z := wrap (a * b).

(** A value that fits a [uintptr_t]. *)
Definition in_uintptr (z : Z) : Prop := 0 <= z < uintptr_modulus.

(* ================================================================== *)
(** * Instruction buffer and decoder *)

(** Modelled from the spec: the architecture tag is one of x86, x86_64 or
    another architecture. *)
Inductive SupportedArch := x86 | x86_64 | other_arch.

Definition arch_eqb (a b : SupportedArch) : bool :=
  match a, b with
  | x86, x86 | x86_64, x86_64 | other_arch, other_arch => true
  | _, _ => false
  end.

(** [struct InstructionBuf].  [code_buf] is the content of the array as it
    sits in memory: the first [code_buf_len] bytes were fetched from the
    tracee, the rest is whatever the array held before. *)
Record InstructionBuf := mkInstructionBuf {
  ib_arch : SupportedArch;
  code_buf : list Z;
  code_buf_len : Z
}.

(** [code.code_buf[i]] *)
Definition buf_at (code : InstructionBuf) (i : Z) : Z :=
  nth (Z.to_nat i) (code_buf code) 0.

(** [struct DecodedInstruction] *)
Record DecodedInstruction := mkDecoded {
  operand_size : Z;
  length : Z;
  modifies_flags : bool
}.

(** The three [found_*_prefix] locals of the decoder. *)
Record PrefixFlags := mkPrefixFlags {
  found_operand_prefix : bool;
  found_REP_prefix : bool;
  found_REXW_prefix : bool
}.

Definition no_prefix : PrefixFlags := mkPrefixFlags false false false.

(** State of the decoder when its [for] loop is left without [return false]:
    the index [i], the prefix flags, [decoded->modifies_flags] and [done]. *)
Record ScanEnd := mkScanEnd {
  scan_i : Z;
  scan_flags : PrefixFlags;
  scan_modifies_flags : bool;
  scan_done : bool
}.

Definition byte_in (b : Z) (l : list Z) : bool := existsb (Z.eqb b) l.

(** The [for (i = 0; i < code.code_buf_len; ++i) switch ...] loop; [n] counts
    the iterations that remain before [i] reaches [code_buf_len].  [None] is
    [return false] from inside the loop. *)
Fixpoint decode_scan (n : nat) (code : InstructionBuf) (i : Z)
    (st : PrefixFlags) : option ScanEnd :=
  match n with
  | O => Some (mkScanEnd i st false false)
  | S n' =>
    let b := buf_at code i in
    if b =? 0x66 then
      decode_scan n' code (i + 1)
        (mkPrefixFlags true (found_REP_prefix st) (found_REXW_prefix st))
    else if b =? 0x48 then
      if arch_eqb (ib_arch code) x86_64 then
        decode_scan n' code (i + 1)
          (mkPrefixFlags (found_operand_prefix st) (found_REP_prefix st) true)
      else None
    else if byte_in b [0xF2; 0xF3] then
      decode_scan n' code (i + 1)
        (mkPrefixFlags (found_operand_prefix st) true (found_REXW_prefix st))
    else if byte_in b [0xA4; 0xA5; 0xAA; 0xAB; 0xAC; 0xAD] then
      Some (mkScanEnd i st false true)
    else if byte_in b [0xA6; 0xA7; 0xAE; 0xAF] then
      Some (mkScanEnd i st true true)
    else None
  end.

(** [decode_x86_string_instruction]: [None] is [false]; [Some d] is [true]
    with [*decoded = d].  Note that [done] is not consulted after the loop. *)
Definition decode_x86_string_instruction (code : InstructionBuf)
    : option DecodedInstruction :=
  match decode_scan (Z.to_nat (code_buf_len code)) code 0 no_prefix with
  | None => None
  | Some e =>
    if negb (found_REP_prefix (scan_flags e)) then None
    else
      Some (mkDecoded
        (if negb (Z.land (buf_at code (scan_i e)) 1 =? 0) then
           (if found_REXW_prefix (scan_flags e) then 8
            else if found_operand_prefix (scan_flags e) then 2 else 4)
         else 1)
        (scan_i e + 1)
        (scan_modifies_flags e))
  end.

(* ================================================================== *)
(** * The tracee *)

(** Modelled from the spec: the register file snapshot ([Registers] is
    declared outside this file); the accessors the routine uses, plus the
    accumulator, and the flags word with DF at bit 10 and ZF at bit 6. *)
Record Registers := mkRegs {
  ip : Z;
  cx : Z;
  si : Z;
  di : Z;
  ax : Z;
  flags : Z
}.

Definition df_flag (r : Registers) : bool := Z.testbit (flags r) 10.
Definition zf_flag (r : Registers) : bool := Z.testbit (flags r) 6.

Definition set_ip (r : Registers) (a : Z) : Registers :=
  mkRegs a (cx r) (si r) (di r) (ax r) (flags r).

(** Modelled from the spec: [Registers::matches] is equality of snapshots. *)
Definition matches (a b : Registers) : bool :=
  (ip a =? ip b) && (cx a =? cx b) && (si a =? si b) && (di a =? di b)
  && (ax a =? ax b) && (flags a =? flags b).

(** Modelled from the spec: a watchpoint triggers on execution, on writes,
    or on reads and writes. *)
Inductive WatchType := WATCH_EXEC | WATCH_WRITE | WATCH_READWRITE.

(** Modelled from the spec: [WatchConfig] is [{ addr, num_bytes, kind }]. *)
Record WatchConfig := mkWatch {
  addr : Z;
  num_bytes : Z;
  type : WatchType
}.

(** Modelled from the spec: no breakpoint, a breakpoint of the debugger's
    own, or one set by the user. *)
Inductive TrapType := TRAP_NONE | TRAP_BKPT_INTERNAL | TRAP_BKPT_USER.

Definition trap_eqb (a b : TrapType) : bool :=
  match a, b with
  | TRAP_NONE, TRAP_NONE | TRAP_BKPT_INTERNAL, TRAP_BKPT_INTERNAL
  | TRAP_BKPT_USER, TRAP_BKPT_USER => true
  | _, _ => false
  end.

(** Modelled from the spec: the virtual-memory view's breakpoint and
    watchpoint tables ([AddressSpace] is declared outside this file).
    Breakpoints are counted references [(address, kind)]; the saved
    watchpoint sets form a stack. *)
Record AddressSpace := mkVm {
  breakpoints : list (Z * TrapType);
  watchpoints : list WatchConfig;
  saved_watchpoints : list (list WatchConfig)
}.

(** The lines the routine writes with [LOG(debug)]. *)
Inductive LogLine :=
| LogIterationsRequired (iterations : Z)
| LogWatchpointAt (watch_di : Z)
| LogIterationsToGo (iterations : Z)
| LogDone.

(** Modelled from the spec: a stopped tracee.  [mem] gives the byte at a
    mapped address; [debug_log] is the sink of [LOG(debug)]. *)
Record Task := mkTask {
  arch : SupportedArch;
  regs : Registers;
  pending_sig : Z;
  debug_status : Z;
  mem : Z -> option Z;
  vm : AddressSpace;
  debug_log : list LogLine
}.

(** Modelled from the spec: the two ways the routine resumes the tracee. *)
Inductive ResumeRequest := RESUME_CONT | RESUME_SINGLESTEP.

(** What the tracee looks like at its next stop. *)
Record Stop := mkStop {
  stop_regs : Registers;
  stop_sig : Z;
  stop_status : Z;
  stop_mem : Z -> option Z
}.

(* ------------------------------------------------------------------ *)
(** ** The monad of the routine: tracee state, fatal assertions, fuel *)

Inductive Failure :=
| AssertPendingSigtrap
| AssertRangeNoWrap
| AssertWatchpointAdded
| AssertBreakpointAdded
| AssertBreakpointHit
| AssertNoWatchpointInTail
| AssertFlagExit
| AssertSingleRetry.

Inductive Res (A : Type) :=
| Ok (a : A) (t : Task)
| Abort (why : Failure) (t : Task)
| Timeout (t : Task).
Arguments Ok {A} a t.
Arguments Abort {A} why t.
Arguments Timeout {A} t.

Definition M (A : Type) : Type := Task -> Res A.

Definition ret {A} (a : A) : M A := fun t => Ok a t.

Definition bind {A B} (m : M A) (k : A -> M B) : M B := fun t =>
  match m t with
  | Ok a t' => k a t'
  | Abort why t' => Abort why t'
  | Timeout t' => Timeout t'
  end.

Declare Scope ff_scope.
Delimit Scope ff_scope with ff.
Notation "x <- m ;; k" := (bind m (fun x => k))
  (at level 61, m at next level, right associativity) : ff_scope.
Notation "m ;; k" := (bind m (fun _ => k))
  (at level 61, right associativity) : ff_scope.
Local Open Scope ff_scope.

Definition gets {A} (f : Task -> A) : M A := fun t => Ok (f t) t.
Definition modify (f : Task -> Task) : M unit := fun t => Ok tt (f t).

(** [ASSERT(t, cond)] and [assert(cond)]: fatal when [cond] is false. *)
Definition ASSERT (cond : bool) (why : Failure) : M unit := fun t =>
  if cond then Ok tt t else Abort why t.

Definition LOG (l : LogLine) : M unit :=
  modify (fun t => mkTask (arch t) (regs t) (pending_sig t) (debug_status t)
                     (mem t) (vm t) (debug_log t ++ [l])).

(* ------------------------------------------------------------------ *)
(** ** Task and address-space operations *)

Definition with_regs (t : Task) (r : Registers) : Task :=
  mkTask (arch t) r (pending_sig t) (debug_status t) (mem t) (vm t)
    (debug_log t).

Definition with_vm (t : Task) (v : AddressSpace) : Task :=
  mkTask (arch t) (regs t) (pending_sig t) (debug_status t) (mem t) v
    (debug_log t).

Definition task_ip : M Z := gets (fun t => ip (regs t)).
Definition set_regs (r : Registers) : M unit := modify (fun t => with_regs t r).

(** Modelled from the spec: [consume_debug_status] returns the status
    and clears it. *)
Definition consume_debug_status : M Z := fun t =>
  Ok (debug_status t)
     (mkTask (arch t) (regs t) (pending_sig t) 0 (mem t) (vm t) (debug_log t)).

(** Modelled from the spec: a user reference wins over an internal one. *)
Definition get_breakpoint_type_at_addr (v : AddressSpace) (a : Z) : TrapType :=
  if existsb (fun b => (fst b =? a) && trap_eqb (snd b) TRAP_BKPT_USER)
       (breakpoints v) then TRAP_BKPT_USER
  else if existsb (fun b => fst b =? a) (breakpoints v) then TRAP_BKPT_INTERNAL
  else TRAP_NONE.

(** Remove the first reference [(a, k)]. *)
Fixpoint drop_breakpoint (a : Z) (k : TrapType) (l : list (Z * TrapType))
    : list (Z * TrapType) :=
  match l with
  | [] => []
  | b :: rest =>
    if (fst b =? a) && trap_eqb (snd b) k then rest
    else b :: drop_breakpoint a k rest
  end.

(** Modelled from the spec: [remove_breakpoint] releases one reference. *)
Definition remove_breakpoint (a : Z) (k : TrapType) : M unit :=
  modify (fun t => with_vm t (mkVm (drop_breakpoint a k (breakpoints (vm t)))
                                (watchpoints (vm t))
                                (saved_watchpoints (vm t)))).

(** Modelled from the spec: [save_watchpoints] pushes the current set on
    the save stack and leaves it installed. *)
Definition save_watchpoints : M unit :=
  modify (fun t => with_vm t (mkVm (breakpoints (vm t)) (watchpoints (vm t))
                        (watchpoints (vm t) :: saved_watchpoints (vm t)))).

(** Modelled from the spec: [remove_all_watchpoints] empties the current
    set. *)
Definition remove_all_watchpoints : M unit :=
  modify (fun t => with_vm t (mkVm (breakpoints (vm t)) []
                                (saved_watchpoints (vm t)))).

(** Modelled from the spec: [restore_watchpoints] replaces the current set
    by the one saved last and pops it. *)
Definition restore_watchpoints : M unit :=
  modify (fun t =>
    match saved_watchpoints (vm t) with
    | [] => t
    | s :: older => with_vm t (mkVm (breakpoints (vm t)) s older)
    end).

(** Modelled from the spec: [read_bytes_fallible] reads up to [n] bytes
    and stops at the first unmapped address. *)
Fixpoint read_bytes_fallible (m : Z -> option Z) (a : Z) (n : nat) : list Z :=
  match n with
  | O => []
  | S n' =>
    match m a with
    | None => []
    | Some b => b :: read_bytes_fallible m (uadd a 1) n'
    end
  end.

(** [read_instruction]: [junk] is what the 32-byte array held before the
    read; slots that were not fetched keep it. *)
Definition read_instruction (junk : list Z) (t : Task) (a : Z)
    : InstructionBuf :=
  let fetched := read_bytes_fallible (mem t) a 32 in
  mkInstructionBuf (arch t)
    (fetched ++ skipn (List.length fetched) (firstn 32 junk))
    (Z.of_nat (List.length fetched)).

(* ================================================================== *)
(** * The fast-forward engine *)

Section Engine.

(** Declared outside this file and taken as parameters: the signal number
    [SIGTRAP], the debug-status mask [DS_WATCHPOINT_ANY], the previous
    content [junk] of the instruction buffer's stack slot, the tracee's
    hardware [hw]: what the tracee looks like at its next stop when it is
    resumed from a given state (it sees the installed breakpoints and
    watchpoints, and cannot change the tracer's tables), and
    [watchpoint_fits] and [breakpoint_fits]: whether the address space
    accepts a given watchpoint, and a breakpoint of a given kind at a given
    address, for the stopped tracee. *)
Variable SIGTRAP : Z.
Variable DS_WATCHPOINT_ANY : Z.
Variable junk : list Z.
Variable hw : ResumeRequest -> Task -> Stop.
Variable watchpoint_fits : Z -> Z -> WatchType -> Task -> bool.
Variable breakpoint_fits : Z -> TrapType -> Task -> bool.

(** The tracee at its next stop: registers, signal, debug status and memory
    are the hardware's; the tracer's tables are untouched. *)
Definition next_stop (how : ResumeRequest) (t : Task) : Task :=
  let s := hw how t in
  mkTask (arch t) (stop_regs s) (stop_sig s) (stop_status s) (stop_mem s)
    (vm t) (debug_log t).

(** [t->resume_execution(how, RESUME_WAIT)] *)
Definition resume_execution (how : ResumeRequest) : M unit :=
  modify (next_stop how).

Definition assert_sigtrap : M unit :=
  sig <- gets pending_sig ;;
  ASSERT (sig =? SIGTRAP) AssertPendingSigtrap.

(** Modelled from the spec: [add_watchpoint] installs the watchpoint
    after the ones there are and returns true; when the address space
    refuses it, it returns false and leaves the tables as they are. *)
Definition add_watchpoint (a : Z) (n : Z) (k : WatchType) : M bool := fun t =>
  if watchpoint_fits a n k t then
    Ok true (with_vm t (mkVm (breakpoints (vm t))
                          (watchpoints (vm t) ++ [mkWatch a n k])
                          (saved_watchpoints (vm t))))
  else Ok false t.

(** Modelled from the spec: [add_breakpoint] takes one more reference and
    returns true; when the address space refuses the breakpoint it returns
    false and leaves the tables as they are. *)
Definition add_breakpoint (a : Z) (k : TrapType) : M bool := fun t =>
  if breakpoint_fits a k t then
    Ok true (with_vm t (mkVm ((a, k) :: breakpoints (vm t))
                          (watchpoints (vm t)) (saved_watchpoints (vm t))))
  else Ok false t.

(** [mem_intersect] *)
Definition mem_intersect (a1 s1 a2 s2 : Z) : M bool :=
  ASSERT (a1 <? uadd a1 s1) AssertRangeNoWrap ;;
  ASSERT (a2 <? uadd a2 s2) AssertRangeNoWrap ;;
  ret (Z.max a1 a2 <? Z.min (uadd a1 s1) (uadd a2 s2)).

(** [bound_iterations_for_watchpoint]; the result is the new [*iterations].
    The difference of two [remote_ptr]s is the unsigned distance. *)
Definition bound_iterations_for_watchpoint (reg : Z)
    (decoded : DecodedInstruction) (watch : WatchConfig) (iterations : Z)
    : M Z :=
  let size := operand_size decoded in
  r <- gets regs ;;
  let direction := if df_flag r then -1 else 1 in
  hit <- mem_intersect reg size (addr watch) (num_bytes watch) ;;
  if hit then ret 0
  else if 0 <? direction then
    if addr watch <? reg then ret iterations
    else
      let steps := wrap (usub (addr watch) reg / size) in
      ret (Z.min iterations steps)
  else
    if reg <? addr watch then ret iterations
    else
      let steps :=
        wrap (usub reg (uadd (addr watch) (num_bytes watch)) / size + 1) in
      ret (Z.min iterations steps).

(** One turn of the loop over [states] in the bounder. *)
Definition bound_iterations_for_state (ip0 : Z) (decoded : DecodedInstruction)
    (cur_cx : Z) (iterations : Z) (state : Registers) : Z :=
  if ip state =? ip0 then
    let dest_cx := cx state in
    if dest_cx =? 0 then iterations
    else if cur_cx <=? dest_cx then iterations
    else Z.min iterations (usub (usub cur_cx dest_cx) 1)
  else if ip state =? uadd ip0 (length decoded) then
    let dest_cx := cx state in
    if cur_cx <=? dest_cx then iterations
    else Z.min iterations (usub (usub cur_cx dest_cx) 1)
  else iterations.

(** [for (size_t i = 0; states[i]; ++i)] over the null-terminated array. *)
Definition bound_iterations_for_states (ip0 : Z) (decoded : DecodedInstruction)
    (cur_cx : Z) (states : list Registers) (iterations : Z) : Z :=
  fold_left (bound_iterations_for_state ip0 decoded cur_cx) states iterations.

(** [for (auto& watch : t->vm()->all_watchpoints())]: SI, then DI. *)
Fixpoint bound_iterations_for_watchpoints (decoded : DecodedInstruction)
    (watches : list WatchConfig) (iterations : Z) : M Z :=
  match watches with
  | [] => ret iterations
  | watch :: rest =>
    r <- gets regs ;;
    iterations <- bound_iterations_for_watchpoint (si r) decoded watch
                    iterations ;;
    r <- gets regs ;;
    iterations <- bound_iterations_for_watchpoint (di r) decoded watch
                    iterations ;;
    bound_iterations_for_watchpoints decoded rest iterations
  end.

(** The bounder of one round: [None] when the routine returns at once
    ([cur_cx == 0] or [iterations == 0]), else [(cur_cx, iterations)]. *)
Definition bound_iterations (ip0 : Z) (decoded : DecodedInstruction)
    (states : list Registers) : M (option (Z * Z)) :=
  cur_cx <- gets (fun t => cx (regs t)) ;;
  if cur_cx =? 0 then ret None
  else
    let iterations := usub cur_cx 1 in
    let iterations :=
      bound_iterations_for_states ip0 decoded cur_cx states iterations in
    watches <- gets (fun t => watchpoints (vm t)) ;;
    iterations <- bound_iterations_for_watchpoints decoded watches
                    iterations ;;
    if iterations =? 0 then ret None else ret (Some (cur_cx, iterations)).

Definition BYTES_COALESCED : Z := 128.

(** The body of [if (watch_offset > BYTES_COALESCED)]; the result is the
    updated [iterations]. *)
Definition batched_phase (ip0 : Z) (decoded : DecodedInstruction)
    (cur_cx direction watch_offset iterations : Z) : M Z :=
  let watch_offset := usub watch_offset BYTES_COALESCED in
  save_watchpoints ;;
  remove_all_watchpoints ;;
  r <- gets regs ;;
  let watch_di := uadd (di r) (umul direction watch_offset) in
  LOG (LogWatchpointAt watch_di) ;;
  ok <- add_watchpoint watch_di 1 WATCH_READWRITE ;;
  ASSERT ok AssertWatchpointAdded ;;
  ok <- add_breakpoint (uadd ip0 (length decoded)) TRAP_BKPT_INTERNAL ;;
  ASSERT ok AssertBreakpointAdded ;;
  resume_execution RESUME_CONT ;;
  assert_sigtrap ;;
  status <- consume_debug_status ;;
  (if Z.land status DS_WATCHPOINT_ANY =? 0 then
     cur <- task_ip ;;
     ASSERT ((cur =? uadd (uadd ip0 (length decoded)) 1)
             && modifies_flags decoded) AssertBreakpointHit ;;
     tmp <- gets regs ;;
     set_regs (set_ip tmp (uadd ip0 (length decoded)))
   else ret tt) ;;
  remove_breakpoint (uadd ip0 (length decoded)) TRAP_BKPT_INTERNAL ;;
  restore_watchpoints ;;
  r <- gets regs ;;
  ret (usub iterations (usub cur_cx (cx r))).

(** [while (iterations > 0 && t->ip() == ip)]; [n] bounds the number of
    turns and is [iterations] at the call. *)
Fixpoint tail_phase (n : nat) (ip0 : Z) (iterations : Z) : M Z :=
  match n with
  | O => ret iterations
  | S n' =>
    cur <- task_ip ;;
    if (0 <? iterations) && (cur =? ip0) then
      resume_execution RESUME_SINGLESTEP ;;
      assert_sigtrap ;;
      status <- consume_debug_status ;;
      ASSERT (Z.land status DS_WATCHPOINT_ANY =? 0) AssertNoWatchpointInTail ;;
      tail_phase n' ip0 (iterations - 1)
    else ret iterations
  end.

(** From [Registers r = t->regs()] to the end of the tail loop. *)
Definition execute_iterations (ip0 : Z) (decoded : DecodedInstruction)
    (cur_cx iterations : Z) : M Registers :=
  LOG (LogIterationsRequired iterations) ;;
  r <- gets regs ;;
  let direction := if df_flag r then -1 else 1 in
  let watch_offset := umul (operand_size decoded) (usub iterations 1) in
  iterations <-
    (if BYTES_COALESCED <? watch_offset then
       batched_phase ip0 decoded cur_cx direction watch_offset iterations
     else ret iterations) ;;
  LOG (LogIterationsToGo iterations) ;;
  tail_phase (Z.to_nat iterations) ip0 iterations ;;
  ret r.

(** The [if (t->ip() != ip) ... else break] at the end of a round.  [None]
    is [break]; [Some (states, states_copy)] starts another round. *)
Definition retry_or_done (ip0 : Z) (decoded : DecodedInstruction)
    (states states_copy : list Registers) (r : Registers)
    : M (option (list Registers * list Registers)) :=
  cur <- task_ip ;;
  if negb (cur =? ip0) then
    ASSERT ((cur =? uadd ip0 (length decoded)) && modifies_flags decoded)
      AssertFlagExit ;;
    ASSERT (match states_copy with [] => true | _ => false end)
      AssertSingleRetry ;;
    extra_state_to_avoid <- gets regs ;;
    let states_copy := states_copy ++ states ++ [extra_state_to_avoid] in
    set_regs r ;;
    ret (Some (states_copy, states_copy))
  else
    LOG LogDone ;;
    ret None.

(** One turn of [while (true)]. *)
Definition round (ip0 : Z) (decoded : DecodedInstruction)
    (states states_copy : list Registers)
    : M (option (list Registers * list Registers)) :=
  plan <- bound_iterations ip0 decoded states ;;
  match plan with
  | None => ret None
  | Some (cur_cx, iterations) =>
    r <- execute_iterations ip0 decoded cur_cx iterations ;;
    retry_or_done ip0 decoded states states_copy r
  end.

(** [while (true)] with a bound on the number of turns. *)
Fixpoint rounds (fuel : nat) (ip0 : Z) (decoded : DecodedInstruction)
    (states states_copy : list Registers) : M unit :=
  match fuel with
  | O => fun t => Timeout t
  | S fuel' =>
    next <- round ip0 decoded states states_copy ;;
    match next with
    | None => ret tt
    | Some (states', states_copy') =>
      rounds fuel' ip0 decoded states' states_copy'
    end
  end.

(** [fast_forward_through_instruction] *)
Definition fast_forward_through_instruction (fuel : nat)
    (states : list Registers) : M unit :=
  ip0 <- task_ip ;;
  resume_execution RESUME_SINGLESTEP ;;
  assert_sigtrap ;;
  cur <- task_ip ;;
  if negb (cur =? ip0) then ret tt else
  bkpt <- gets (fun t => get_breakpoint_type_at_addr (vm t) ip0) ;;
  if negb (trap_eqb bkpt TRAP_NONE) then ret tt else
  status <- gets debug_status ;;
  if negb (Z.land status DS_WATCHPOINT_ANY =? 0) then ret tt else
  r <- gets regs ;;
  if existsb (fun s => matches s r) states then ret tt else
  a <- gets arch ;;
  if negb (arch_eqb a x86) && negb (arch_eqb a x86_64) then ret tt else
  instruction_buf <- gets (fun t => read_instruction junk t ip0) ;;
  match decode_x86_string_instruction instruction_buf with
  | None => ret tt
  | Some decoded => rounds fuel ip0 decoded states []
  end.

End Engine.

(* ================================================================== *)
(** * A reference tracee: REP string instructions on x86 Linux *)

(** Modelled from the spec: the tables of section 4.1 and the glossary
    (each iteration moves SI and/or DI by the operand size in the direction
    given by DF and decrements CX; the loop ends when CX reaches 0 or, for
    the compare and scan forms, when ZF ends it), hardware watchpoints that
    trap after the iteration that touched them, and breakpoints that trap
    one byte past their address.  Only REP-prefixed string instructions and
    the short jump [EB rel8] are known; anything else is an illegal
    instruction.  It instantiates [hw], [watchpoint_fits] and
    [breakpoint_fits] for the worked scenarios. *)
Module RefCpu.

Definition SIGILL : Z := 4.
Definition SIGTRAP : Z := 5.
Definition SIGSEGV : Z := 11.
Definition SIGSTKFLT : Z := 16.
Definition DS_WATCHPOINT_ANY : Z := 0xF.
Definition DS_SINGLESTEP : Z := 0x4000.

Definition Memory : Type := Z -> option Z.

Fixpoint load (m : Memory) (a : Z) (n : nat) : option (list Z) :=
  match n with
  | O => Some []
  | S n' =>
    match m a, load m (a + 1) n' with
    | Some b, Some rest => Some (b :: rest)
    | _, _ => None
    end
  end.

Fixpoint store (m : Memory) (a : Z) (bytes : list Z) : option Memory :=
  match bytes with
  | [] => Some m
  | b :: rest =>
    match m a with
    | None => None
    | Some _ => store (fun x => if x =? a then Some b else m x) (a + 1) rest
    end
  end.

Definition le_bytes (v : Z) (n : nat) : list Z :=
  map (fun k => Z.shiftr v (8 * Z.of_nat k) mod 256) (seq 0 n).

Definition le_value (bytes : list Z) : Z :=
  fold_right (fun b acc => b + 256 * acc) 0 bytes.

Definition set_zf (f : Z) (z : bool) : Z :=
  if z then Z.setbit f 6 else Z.clearbit f 6.

Definition list_eqb (a b : list Z) : bool :=
  (List.length a =? List.length b)%nat
  && forallb (fun p => fst p =? snd p) (combine a b).

(** One iteration: the new registers and memory, and the ranges read and
    written. *)
Record Iteration := mkIteration {
  it_regs : Registers;
  it_mem : Memory;
  it_reads : list (Z * Z);
  it_writes : list (Z * Z)
}.

Definition string_iteration (opcode size : Z) (r : Registers) (m : Memory)
    : option Iteration :=
  let n := Z.to_nat size in
  let step := if df_flag r then - size else size in
  let family := Z.land opcode 0xFE in
  if family =? 0xA4 then
    match load m (si r) n with
    | None => None
    | Some bytes =>
      match store m (di r) bytes with
      | None => None
      | Some m' =>
        Some (mkIteration
          (mkRegs (ip r) (cx r) (uadd (si r) step) (uadd (di r) step)
             (ax r) (flags r))
          m' [(si r, size)] [(di r, size)])
      end
    end
  else if family =? 0xAA then
    match store m (di r) (le_bytes (ax r) n) with
    | None => None
    | Some m' =>
      Some (mkIteration
        (mkRegs (ip r) (cx r) (si r) (uadd (di r) step) (ax r) (flags r))
        m' [] [(di r, size)])
    end
  else if family =? 0xAC then
    match load m (si r) n with
    | None => None
    | Some bytes =>
      Some (mkIteration
        (mkRegs (ip r) (cx r) (uadd (si r) step) (di r)
           (Z.shiftl (Z.shiftr (ax r) (8 * size)) (8 * size) + le_value bytes)
           (flags r))
        m [(si r, size)] [])
    end
  else if family =? 0xA6 then
    match load m (si r) n, load m (di r) n with
    | Some a, Some b =>
      Some (mkIteration
        (mkRegs (ip r) (cx r) (uadd (si r) step) (uadd (di r) step) (ax r)
           (set_zf (flags r) (list_eqb a b)))
        m [(si r, size); (di r, size)] [])
    | _, _ => None
    end
  else
    match load m (di r) n with
    | None => None
    | Some b =>
      Some (mkIteration
        (mkRegs (ip r) (cx r) (si r) (uadd (di r) step) (ax r)
           (set_zf (flags r) (list_eqb (le_bytes (ax r) n) b)))
        m [(di r, size)] [])
    end.

(** The REP wrapper around one iteration. *)
Definition rep_step (d : DecodedInstruction) (opcode : Z) (repne : bool)
    (r : Registers) (m : Memory) : option Iteration :=
  if cx r =? 0 then
    Some (mkIteration (set_ip r (uadd (ip r) (length d))) m [] [])
  else
    match string_iteration opcode (operand_size d) r m with
    | None => None
    | Some it =>
      let r1 := it_regs it in
      let r2 := mkRegs (ip r1) (cx r1 - 1) (si r1) (di r1) (ax r1) (flags r1) in
      let leave :=
        (cx r2 =? 0)
        || (modifies_flags d
            && (if repne then zf_flag r2 else negb (zf_flag r2))) in
      Some (mkIteration
        (if leave then set_ip r2 (uadd (ip r2) (length d)) else r2)
        (it_mem it) (it_reads it) (it_writes it))
    end.

Definition ranges_overlap (a1 s1 a2 s2 : Z) : bool :=
  Z.max a1 a2 <? Z.min (a1 + s1) (a2 + s2).

Definition watch_hit (it : Iteration) (w : WatchConfig) : bool :=
  let touches :=
    existsb (fun rg => ranges_overlap (fst rg) (snd rg) (addr w)
                         (num_bytes w)) in
  match type w with
  | WATCH_EXEC => false
  | WATCH_WRITE => touches (it_writes it)
  | WATCH_READWRITE => touches (it_reads it ++ it_writes it)
  end.

(** The status bit of the k-th debug register is [2^k]. *)
Fixpoint watch_bits (it : Iteration) (ws : list WatchConfig) (bit : Z) : Z :=
  match ws with
  | [] => 0
  | w :: rest =>
    Z.lor (if watch_hit it w then bit else 0) (watch_bits it rest (2 * bit))
  end.

Inductive Exec :=
| Running (r : Registers) (m : Memory) (status : Z)
| Stopped (s : Stop).

Definition sign_extend8 (b : Z) : Z := if b <? 128 then b else b - 256.

(** Execute what is at [ip r]. *)
Definition execute_one (a : SupportedArch) (v : AddressSpace) (r : Registers)
    (m : Memory) (status : Z) : Exec :=
  if existsb (fun b => fst b =? ip r) (breakpoints v) then
    Stopped (mkStop (set_ip r (uadd (ip r) 1)) SIGTRAP status m)
  else
    let fetched := read_bytes_fallible m (ip r) 15 in
    let code := mkInstructionBuf a fetched (Z.of_nat (List.length fetched)) in
    match fetched with
    | [] => Stopped (mkStop r SIGSEGV status m)
    | first :: _ =>
      if first =? 0xEB then
        match m (ip r + 1) with
        | None => Stopped (mkStop r SIGSEGV status m)
        | Some rel =>
          Running (set_ip r (uadd (ip r) (2 + sign_extend8 rel))) m status
        end
      else
        match decode_x86_string_instruction code with
        | None => Stopped (mkStop r SIGILL status m)
        | Some d =>
          if code_buf_len code <? length d then
            Stopped (mkStop r SIGILL status m)
          else
            let opcode := buf_at code (length d - 1) in
            let repne :=
              byte_in 0xF2 (firstn (Z.to_nat (length d - 1)) fetched) in
            match rep_step d opcode repne r m with
            | None => Stopped (mkStop r SIGSEGV status m)
            | Some it =>
              let bits := watch_bits it (watchpoints v) 1 in
              if bits =? 0 then Running (it_regs it) (it_mem it) status
              else
                Stopped (mkStop (it_regs it) SIGTRAP (Z.lor status bits)
                           (it_mem it))
            end
        end
    end.

(** Run until something stops the tracee; when [budget] instructions and
    iterations have run, the time slice ends with [SIGSTKFLT]. *)
Fixpoint continue (budget : nat) (a : SupportedArch) (v : AddressSpace)
    (r : Registers) (m : Memory) (status : Z) : Stop :=
  match budget with
  | O => mkStop r SIGSTKFLT status m
  | S budget' =>
    match execute_one a v r m status with
    | Running r' m' status' => continue budget' a v r' m' status'
    | Stopped s => s
    end
  end.

Definition cpu (budget : nat) (how : ResumeRequest) (t : Task) : Stop :=
  match how with
  | RESUME_SINGLESTEP =>
    match execute_one (arch t) (vm t) (regs t) (mem t) (debug_status t) with
    | Running r m status => mkStop r SIGTRAP (Z.lor status DS_SINGLESTEP) m
    | Stopped s => s
    end
  | RESUME_CONT =>
    continue budget (arch t) (vm t) (regs t) (mem t) (debug_status t)
  end.

(** The four debug address registers of x86 bound the number of
    watchpoints: a fifth one is refused. *)
Definition watchpoint_fits (a n : Z) (k : WatchType) (t : Task) : bool :=
  (List.length (watchpoints (vm t)) <? 4)%nat.

(** The reference address space places a breakpoint wherever it is asked
    to. *)
Definition breakpoint_fits (a : Z) (k : TrapType) (t : Task) : bool := true.

(** The routine on this tracee. *)
Definition run (budget : nat) (states : list Registers) (t : Task)
    : Res unit :=
  fast_forward_through_instruction SIGTRAP DS_WATCHPOINT_ANY [] (cpu budget)
    watchpoint_fits breakpoint_fits 2 states t.

(** Memory with [code] at [base] and zero-filled data in [lo, hi). *)
Definition image (base : Z) (code : list Z) (lo hi : Z) : Memory := fun a =>
  if (base <=? a) && (a <? base + Z.of_nat (List.length code)) then
    Some (nth (Z.to_nat (a - base)) code 0)
  else if (lo <=? a) && (a <? hi) then Some 0
  else None.

(** Scenario S1: [rep movsb] at 0x1000, CX = 1000, SI = 0x8000,
    DI = 0x9000, DF = 0, nothing installed, no target states. *)
Definition s1_task : Task :=
  mkTask x86_64 (mkRegs 0x1000 1000 0x8000 0x9000 0 0) 0 0
    (image 0x1000 [0xF3; 0xA4] 0x8000 0xA000) (mkVm [] [] []) [].

(** Scenario S4 at the bounder: [rep cmpsb] with CX = 200, and a target
    state at the same IP with CX = 50. *)
Definition s4_task : Task :=
  mkTask x86_64 (mkRegs 0x1000 200 0x8000 0x9000 0 0) SIGTRAP 0
    (image 0x1000 [0xF3; 0xA6] 0x8000 0xA000) (mkVm [] [] []) [].

Definition s4_target : Registers := mkRegs 0x1000 50 0x8096 0x9096 0 0.

(** A short jump at the entry IP. *)
Definition jump_task : Task :=
  mkTask x86_64 (mkRegs 0x1000 7 0 0 0 0) 0 0
    (image 0x1000 [0xEB; 0x10] 0 0) (mkVm [] [] []) [].


Definition user_watch : WatchConfig := mkWatch 0x20000 4 WATCH_WRITE.

(** [rep movsb] of 1000 bytes whose destination is mapped for 0x200 bytes
    only, with a watchpoint of the user installed elsewhere. *)
Definition faulting_task : Task :=
  mkTask x86_64 (mkRegs 0x1000 1000 0x8000 0x9000 0 0) 0 0
    (image 0x1000 [0xF3; 0xA4] 0x8000 0x9200) (mkVm [] [user_watch] []) [].

(** [rep stosb], which does not use SI, with SI holding all ones, and a
    watchpoint of the user installed. *)
Definition stray_si_task : Task :=
  mkTask x86_64 (mkRegs 0x1000 1000 (uintptr_modulus - 1) 0x9000 0 0) 0 0
    (image 0x1000 [0xF3; 0xAA] 0x8000 0xA000) (mkVm [] [user_watch] []) [].

(** [repne scasb] looking for 0x41, which sits 300 bytes into the buffer. *)
Definition scan_task : Task :=
  mkTask x86_64 (mkRegs 0x1000 1000 0 0x9000 0x41 0) 0 0
    (fun a => if a =? 0x912C then Some 0x41
              else image 0x1000 [0xF2; 0xAE] 0x8000 0xA000 a)
    (mkVm [] [user_watch] []) [].

End RefCpu.

(** The tracee and the value a computation ended with. *)
Definition result_task {A} (r : Res A) : Task :=
  match r with Ok _ t | Abort _ t | Timeout t => t end.

Definition result_value {A} (r : Res A) : option A :=
  match r with Ok a _ => Some a | _ => None end.

(* ================================================================== *)
(** * Vocabulary of the specification *)

(** The recognised prefixes and the ten string opcodes of section 4.1. *)
Definition is_prefix_byte (b : Z) : bool := byte_in b [0x66; 0x48; 0xF2; 0xF3].

Definition string_opcodes : list Z :=
  [0xA4; 0xA5; 0xAA; 0xAB; 0xAC; 0xAD; 0xA6; 0xA7; 0xAE; 0xAF].

Fixpoint take_while {A} (p : A -> bool) (l : list A) : list A :=
  match l with
  | [] => []
  | x :: rest => if p x then x :: take_while p rest else []
  end.

(** The bytes that were fetched from the tracee, and the run of prefix
    bytes they start with. *)
Definition fetched_bytes (code : InstructionBuf) : list Z :=
  firstn (Z.to_nat (code_buf_len code)) (code_buf code).

Definition prefix_bytes (code : InstructionBuf) : list Z :=
  take_while is_prefix_byte (fetched_bytes code).

(** The bound against target states, in the words of section 4.3: start
    from [cur_cx - 1]; a state at [IP] is skipped when its CX is 0 or not
    below [cur_cx]; a state at [IP + len] is skipped when its CX is not below
    [cur_cx]; otherwise the bound is tightened to [cur_cx - s.cx - 1]. *)
Definition spec_tighten_for_state (IP len cur_cx : Z) (iterations : Z)
    (s : Registers) : Z :=
  if ip s =? IP then
    if (cx s =? 0) || (cur_cx <=? cx s) then iterations
    else Z.min iterations (cur_cx - cx s - 1)
  else if ip s =? IP + len then
    if cur_cx <=? cx s then iterations
    else Z.min iterations (cur_cx - cx s - 1)
  else iterations.

Definition spec_bound_for_states (IP len cur_cx : Z) (states : list Registers)
    : Z :=
  fold_left (spec_tighten_for_state IP len cur_cx) states (cur_cx - 1).

(** The half-open ranges [a1, a1+s1) and [a2, a2+s2) share an address. *)
Definition ranges_intersect (a1 s1 a2 s2 : Z) : Prop :=
  exists x, a1 <= x < a1 + s1 /\ a2 <= x < a2 + s2.

(** The range [a, a+s) is not empty and ends within the address space. *)
Definition range_ok (a s : Z) : Prop :=
  0 <= a /\ 0 < s /\ a + s < uintptr_modulus.

(** How a call ended. *)
Inductive Verdict := Returned | Aborted (why : Failure) | TimedOut.

Definition verdict {A} (r : Res A) : Verdict :=
  match r with
  | Ok _ _ => Returned
  | Abort why _ => Aborted why
  | Timeout _ => TimedOut
  end.

(** No stop of the tracee shows a larger CX than the state it resumed
    from. *)
Definition cx_nonincreasing (hw : ResumeRequest -> Task -> Stop) : Prop :=
  forall how t, cx (stop_regs (hw how t)) <= cx (regs t).

(** The tables while the batched phase runs the tracee: the internal
    breakpoint after the instruction, the one temporary watchpoint, and the
    caller's watchpoints parked on the save stack. *)
Definition armed_tables (bkpt watch_di : Z) (v : AddressSpace) : AddressSpace :=
  mkVm ((bkpt, TRAP_BKPT_INTERNAL) :: breakpoints v)
    [mkWatch watch_di 1 WATCH_READWRITE]
    (watchpoints v :: saved_watchpoints v).

(** The tracee as the batched phase resumes it. *)
Definition armed (bkpt watch_di : Z) (t : Task) : Task :=
  mkTask (arch t) (regs t) (pending_sig t) (debug_status t) (mem t)
    (armed_tables bkpt watch_di (vm t))
    (debug_log t ++ [LogWatchpointAt watch_di]).

(** The tables on the way there.  After [save_watchpoints] and
    [remove_all_watchpoints]: the caller's watchpoints parked, none
    installed. *)
Definition parked_tables (v : AddressSpace) : AddressSpace :=
  mkVm (breakpoints v) [] (watchpoints v :: saved_watchpoints v).

(** The tracee as the batched phase asks for its watchpoint. *)
Definition parked (watch_di : Z) (t : Task) : Task :=
  mkTask (arch t) (regs t) (pending_sig t) (debug_status t) (mem t)
    (parked_tables (vm t))
    (debug_log t ++ [LogWatchpointAt watch_di]).

(** After [add_watchpoint]: the temporary watchpoint installed, the internal
    breakpoint not yet. *)
Definition watching_tables (watch_di : Z) (v : AddressSpace) : AddressSpace :=
  mkVm (breakpoints v) [mkWatch watch_di 1 WATCH_READWRITE]
    (watchpoints v :: saved_watchpoints v).

(** The tracee as the batched phase asks for its breakpoint. *)
Definition watching (watch_di : Z) (t : Task) : Task :=
  mkTask (arch t) (regs t) (pending_sig t) (debug_status t) (mem t)
    (watching_tables watch_di (vm t))
    (debug_log t ++ [LogWatchpointAt watch_di]).

(** What a part of the routine that resumed the tracee leaves behind: the
    tables are as before, the debug status is consumed, and CX did not grow
    if the hardware never lets it grow. *)
Definition stepped (hw : ResumeRequest -> Task -> Stop) (t t' : Task) : Prop :=
  vm t' = vm t /\ debug_status t' = 0 /\
  (cx_nonincreasing hw -> cx (regs t') <= cx (regs t)).

(** [m], started in [t], does not run out of fuel. *)
Definition terminates {A} (m : M A) (t : Task) : Prop :=
  match m t with
  | Timeout _ => False
  | _ => True
  end.

(** The compare and scan opcodes, the ones that set flags. *)
Definition flag_opcodes : list Z := [0xA6; 0xA7; 0xAE; 0xAF].

(** The operand size the decoder derives from the opcode and the prefixes
    seen before it. *)
Definition size_rule (opcode : Z) (prefixes : list Z) : Z :=
  if Z.land opcode 1 =? 0 then 1
  else if byte_in 0x48 prefixes then 8
  else if byte_in 0x66 prefixes then 2 else 4.

(** [int direction = t->regs().df_flag() ? -1 : 1] *)
Definition direction_of (r : Registers) : Z := if df_flag r then -1 else 1.

(** Section 4.3 in the spec's words, for one watchpoint [w] and one address
    register value [R]: a watchpoint under the operand bounds to 0; one
    ahead in the direction of travel tightens the bound to the number of
    whole operands that fit before it; one behind leaves the bound
    unchanged. *)
Definition spec_tighten_for_watchpoint (direction size R : Z) (w : WatchConfig)
    (iterations : Z) : Z :=
  if (R <? addr w + num_bytes w) && (addr w <? R + size) then 0
  else if 0 <? direction then
    if R <=? addr w then Z.min iterations ((addr w - R) / size)
    else iterations
  else
    if addr w <=? R then
      Z.min iterations ((R - (addr w + num_bytes w)) / size + 1)
    else iterations.

(** The same for every active watchpoint, with SI and then with DI. *)
Definition spec_bound_for_watchpoints (direction size SI DI : Z)
    (ws : list WatchConfig) (iterations : Z) : Z :=
  fold_left
    (fun bound w =>
       spec_tighten_for_watchpoint direction size DI w
         (spec_tighten_for_watchpoint direction size SI w bound))
    ws iterations.

(** The tables [v] a call that found the tables [entry] may end with,
    by the way it ends: a return and every failed assertion outside the
    batched phase leave the tables found; a refused temporary watchpoint
    leaves them parked; a refused internal breakpoint leaves the temporary
    watchpoint behind as well; a stop that is not a trap leaves them as
    found (trial step, tail loop) or armed (batched phase); a stop of the
    batched phase that neither watchpoint nor breakpoint explains leaves
    them armed. *)
Definition tables_at_exit (entry : AddressSpace) (how : Verdict)
    (v : AddressSpace) : Prop :=
  match how with
  | Returned | TimedOut => v = entry
  | Aborted AssertWatchpointAdded => v = parked_tables entry
  | Aborted AssertBreakpointAdded =>
    exists watch_di, v = watching_tables watch_di entry
  | Aborted AssertBreakpointHit =>
    exists bkpt watch_di, v = armed_tables bkpt watch_di entry
  | Aborted AssertPendingSigtrap =>
    v = entry \/ exists bkpt watch_di, v = armed_tables bkpt watch_di entry
  | Aborted _ => v = entry
  end.

(** [m], started in [t], ends with tables that [tables_at_exit] allows. *)
Definition keeps_tables {A} (m : M A) (t : Task) : Prop :=
  tables_at_exit (vm t) (verdict (m t)) (vm (result_task (m t))).

(* ================================================================== *)
(** * Theorems *)

(* ------------------------------------------------------------------ *)
(** ** The decoder *)

Lemma skipn_nth_cons (l : list Z) (k : nat) :
  (k < List.length l)%nat -> skipn k l = nth k l 0 :: skipn (S k) l.
Proof.
  revert l; induction k as [|k IH]; intros [|x l] H; simpl in *; try lia.
  - reflexivity.
  - apply IH. lia.
Qed.

Lemma nth_overflow_zero (l : list Z) (k : nat) :
  (List.length l <= k)%nat -> nth k l 0 = 0.
Proof. intro H. now apply nth_overflow. Qed.

(** One prefix byte consumed: conclude with the induction hypothesis. *)
Ltac close_scan_case IH H :=
  apply IH in H; cbn zeta in H;
  let Hi := fresh in let Ho := fresh in let Hx := fresh in
  let Hr := fresh in let Ha := fresh in
  destruct H as (Hi & Ho & Hx & Hr & Ha);
  cbn [orb List.length existsb Z.eqb Pos.eqb];
  cbn [found_operand_prefix found_REP_prefix found_REXW_prefix] in Ho, Hx, Hr;
  rewrite Hi, Ho, Hx, Hr;
  repeat split;
  [ f_equal; lia
  | rewrite ?orb_true_r, ?orb_false_r; reflexivity ..
  | auto ].

(** What [decode_scan] has seen when it leaves the loop: it stopped right
    after the run of prefix bytes, and its flags record that run. *)
Lemma decode_scan_prefix_run (code : InstructionBuf) :
  forall n k st e,
    decode_scan n code (Z.of_nat k) st = Some e ->
    let run :=
      take_while is_prefix_byte (firstn n (skipn k (code_buf code))) in
    scan_i e = Z.of_nat (k + List.length run) /\
    found_operand_prefix (scan_flags e)
      = found_operand_prefix st || byte_in 0x66 run /\
    found_REXW_prefix (scan_flags e)
      = found_REXW_prefix st || byte_in 0x48 run /\
    found_REP_prefix (scan_flags e)
      = found_REP_prefix st || (byte_in 0xF2 run || byte_in 0xF3 run) /\
    (byte_in 0x48 run = true -> ib_arch code = x86_64).
Proof.
  induction n as [|n IH]; intros k st e H.
  - simpl in H. injection H as <-. simpl.
    rewrite Nat.add_0_r, !orb_false_r. repeat split; discriminate.
  - cbn [decode_scan] in H. unfold buf_at in H. rewrite Nat2Z.id in H.
    destruct (Nat.lt_ge_cases k (List.length (code_buf code))) as [Hk|Hk].
    2:{ rewrite (nth_overflow_zero _ _ Hk) in H. simpl in H. discriminate. }
    cbn zeta. rewrite (skipn_nth_cons _ _ Hk).
    set (b := nth k (code_buf code) 0) in *.
    cbn [firstn take_while].
    replace (Z.of_nat k + 1) with (Z.of_nat (S k)) in H by lia.
    unfold is_prefix_byte, byte_in in *. cbn [existsb] in *.
    destruct (Z.eqb_spec b 0x66) as [Hb|Hb66].
    { rewrite Hb. close_scan_case IH H. }
    destruct (Z.eqb_spec b 0x48) as [Hb|Hb48].
    { destruct (arch_eqb (ib_arch code) x86_64) eqn:Harch; [|discriminate].
      assert (ib_arch code = x86_64) as Hx64
        by (destruct (ib_arch code); simpl in Harch; congruence).
      rewrite Hb. close_scan_case IH H. }
    destruct (Z.eqb_spec b 0xF2) as [Hb|HbF2].
    { cbn [orb] in H. rewrite Hb. close_scan_case IH H. }
    destruct (Z.eqb_spec b 0xF3) as [Hb|HbF3].
    { cbn [orb] in H. rewrite Hb. close_scan_case IH H. }
    cbn [orb] in H |- *. cbn [List.length existsb].
    rewrite Nat.add_0_r, !orb_false_r.
    destruct (_ || _) in H.
    { injection H as <-. cbn. repeat split; try discriminate; lia. }
    destruct (_ || _) in H; [|discriminate].
    injection H as <-. cbn. repeat split; try discriminate; lia.
Qed.

(** C9.  Whenever the decoder succeeds, [length] is the number of prefix
    bytes plus one, and [operand_size] is 1 when the low bit of the opcode
    (the byte after the prefixes) is 0, else 8 if a REX.W prefix 0x48 was
    seen (which only x86_64 accepts), else 2 if a 0x66 prefix was seen,
    else 4. *)
Theorem decode_operand_size_and_length
    (code : InstructionBuf) (d : DecodedInstruction) :
  decode_x86_string_instruction code = Some d ->
  let p := prefix_bytes code in
  let opcode := buf_at code (Z.of_nat (List.length p)) in
  length d = Z.of_nat (List.length p) + 1 /\
  operand_size d =
    (if Z.land opcode 1 =? 0 then 1
     else if byte_in 0x48 p then 8
     else if byte_in 0x66 p then 2 else 4) /\
  (byte_in 0x48 p = true -> ib_arch code = x86_64).
Proof.
  unfold decode_x86_string_instruction. intro H.
  destruct (decode_scan _ code 0 no_prefix) as [e|] eqn:Hscan; [|discriminate].
  destruct (found_REP_prefix (scan_flags e)); [|discriminate].
  cbn [negb] in H. injection H as <-.
  apply (decode_scan_prefix_run code _ 0%nat) in Hscan.
  cbn zeta in Hscan. cbn [skipn Nat.add no_prefix found_operand_prefix
    found_REXW_prefix orb] in Hscan.
  destruct Hscan as (Hi & Ho & Hx & _ & Ha).
  unfold prefix_bytes, fetched_bytes. cbn zeta.
  cbn [length operand_size]. rewrite Hi, Ho, Hx.
  repeat split; try assumption.
  destruct (Z.land _ 1 =? 0); reflexivity.
Qed.

(** [rep movsq] written with a redundant 0x66 prefix. *)
Lemma decode_operand_size_and_length_witness :
  let code := mkInstructionBuf x86_64 [0x66; 0xF3; 0x48; 0xA5] 4 in
  let d := mkDecoded 8 4 false in
  decode_x86_string_instruction code = Some d /\
  length d = 3 + 1 /\ operand_size d = 8.
Proof.
  cbn zeta.
  pose proof (decode_operand_size_and_length
                (mkInstructionBuf x86_64 [0x66; 0xF3; 0x48; 0xA5] 4)
                (mkDecoded 8 4 false) eq_refl) as H.
  cbn zeta in H. destruct H as (Hl & Hs & _).
  split; [reflexivity|]. split; [exact Hl | exact Hs].
Defined.

(** The two operand-size boundaries of the specification, on x86_64. *)
Example decode_0x66_without_rexw :
  decode_x86_string_instruction
    (mkInstructionBuf x86_64 [0x66; 0xF3; 0xA5] 3) = Some (mkDecoded 2 3 false).
Proof. reflexivity. Qed.

Example decode_0x66_with_rexw :
  decode_x86_string_instruction
    (mkInstructionBuf x86_64 [0xF3; 0x66; 0x48; 0xA7] 4)
  = Some (mkDecoded 8 4 true).
Proof. reflexivity. Qed.

(** C10.  A buffer whose only fetched byte is the prefix 0xF3 holds none of
    the ten string opcodes, yet the decoder reports success with length 2,
    and its operand size is read off the array slot after the fetched
    byte. *)
Theorem decode_accepts_lone_rep_prefix (a : SupportedArch) (rest : list Z) :
  let code := mkInstructionBuf a (0xF3 :: rest) 1 in
  fetched_bytes code = [0xF3] /\
  (forall b, In b (fetched_bytes code) -> ~ In b string_opcodes) /\
  decode_x86_string_instruction code
  = Some (mkDecoded (if Z.land (nth 0 rest 0) 1 =? 0 then 1 else 4) 2 false).
Proof.
  cbn zeta. split; [reflexivity|]. split.
  - intros b [<-|[]] Hin. simpl in Hin.
    repeat (destruct Hin as [Hin|Hin]; [discriminate|]). exact Hin.
  - unfold decode_x86_string_instruction. simpl.
    unfold buf_at. simpl. destruct (Z.land _ 1 =? 0); reflexivity.
Qed.

(* ------------------------------------------------------------------ *)
(** ** Machine arithmetic *)

Lemma modulus_pos : 0 < uintptr_modulus.
Proof. reflexivity. Qed.

Lemma wrap_small (z : Z) : in_uintptr z -> wrap z = z.
Proof. intro H. apply Z.mod_small. exact H. Qed.

Lemma wrap_range (z : Z) : in_uintptr (wrap z).
Proof. apply Z.mod_pos_bound. exact modulus_pos. Qed.

Lemma wrap_nonneg (z : Z) : 0 <= wrap z.
Proof. apply wrap_range. Qed.

(* ------------------------------------------------------------------ *)
(** ** The bound against target states *)

Lemma bound_state_matches_spec (ip0 cur_cx it : Z) (d : DecodedInstruction)
    (s : Registers) :
  0 < cur_cx < uintptr_modulus ->
  in_uintptr (ip0 + length d) ->
  0 <= cx s ->
  bound_iterations_for_state ip0 d cur_cx it s
  = spec_tighten_for_state ip0 (length d) cur_cx it s.
Proof.
  intros Hcx Hip Hs.
  unfold bound_iterations_for_state, spec_tighten_for_state, uadd, usub.
  rewrite (wrap_small (ip0 + length d)) by exact Hip.
  assert ((cur_cx <=? cx s) = false ->
          wrap (wrap (cur_cx - cx s) - 1) = cur_cx - cx s - 1) as Hsub.
  { intro Hlt. apply Z.leb_gt in Hlt.
    rewrite (wrap_small (cur_cx - cx s)) by (unfold in_uintptr; lia).
    apply wrap_small. unfold in_uintptr. lia. }
  destruct (ip s =? ip0).
  - destruct (cx s =? 0); [reflexivity|]. cbn [orb].
    destruct (cur_cx <=? cx s) eqn:Hle; [reflexivity|].
    now rewrite Hsub.
  - destruct (ip s =? ip0 + length d); [|reflexivity].
    destruct (cur_cx <=? cx s) eqn:Hle; [reflexivity|].
    now rewrite Hsub.
Qed.

Lemma bound_states_matches_spec (ip0 cur_cx : Z) (d : DecodedInstruction)
    (states : list Registers) :
  0 < cur_cx < uintptr_modulus ->
  in_uintptr (ip0 + length d) ->
  Forall (fun s => 0 <= cx s) states ->
  forall it,
    bound_iterations_for_states ip0 d cur_cx states it
    = fold_left (spec_tighten_for_state ip0 (length d) cur_cx) states it.
Proof.
  intros Hcx Hip Hall. unfold bound_iterations_for_states.
  induction Hall as [|s rest Hs _ IH]; intro it; [reflexivity|].
  cbn [fold_left]. rewrite bound_state_matches_spec by assumption. apply IH.
Qed.

(** C3.  In a bounding round with [0 < cur_cx], the loop over the target
    states, started from [cur_cx - 1], computes the bound of section 4.3
    ([spec_bound_for_states]: a state at IP is skipped when its CX is 0 or
    not below [cur_cx], a state at IP + length when its CX is not below
    [cur_cx], any other state is ignored, and the rest tighten the bound to
    [min (bound, cur_cx - s.cx - 1)]); that bound is what the round hands to
    the watchpoint bounder.  In scenario S4 (CX = 200, one target state at
    the same IP with CX = 50) the round's bound is min(199, 200-50-1) = 149. *)
Theorem state_bound_matches_spec (ip0 : Z) (decoded : DecodedInstruction)
    (states : list Registers) (t : Task) :
  let cur_cx := cx (regs t) in
  0 < cur_cx < uintptr_modulus ->
  in_uintptr (ip0 + length decoded) ->
  Forall (fun s => 0 <= cx s) states ->
  bound_iterations_for_states ip0 decoded cur_cx states (usub cur_cx 1)
  = spec_bound_for_states ip0 (length decoded) cur_cx states
  /\
  bound_iterations ip0 decoded states t
  = (iterations <- bound_iterations_for_watchpoints decoded
                     (watchpoints (vm t))
                     (spec_bound_for_states ip0 (length decoded) cur_cx
                        states) ;;
     if iterations =? 0 then ret None
     else ret (Some (cur_cx, iterations))) t
  /\
  bound_iterations (ip (regs RefCpu.s4_task)) (mkDecoded 1 2 true)
    [RefCpu.s4_target] RefCpu.s4_task
  = Ok (Some (200, Z.min 199 (200 - 50 - 1))) RefCpu.s4_task
  /\
  Z.min 199 (200 - 50 - 1) = 149.
Proof.
  cbn zeta. intros Hcx Hip Hall.
  assert (bound_iterations_for_states ip0 decoded (cx (regs t)) states
            (usub (cx (regs t)) 1)
          = spec_bound_for_states ip0 (length decoded) (cx (regs t)) states)
    as Hfold.
  { rewrite bound_states_matches_spec by assumption.
    unfold spec_bound_for_states, usub. f_equal.
    apply wrap_small. unfold in_uintptr. lia. }
  split; [exact Hfold|]. split; [|split; reflexivity].
  unfold bound_iterations, bind, gets.
  destruct (Z.eqb_spec (cx (regs t)) 0) as [H0|_]; [lia|].
  now rewrite Hfold.
Qed.

(* ------------------------------------------------------------------ *)
(** ** The bound against one watchpoint *)

Lemma uadd_range_ok (a s : Z) : range_ok a s -> uadd a s = a + s.
Proof.
  intros (Ha & Hs & Hend). apply wrap_small. unfold in_uintptr. lia.
Qed.

Lemma overlap_test_spec (a1 s1 a2 s2 : Z) :
  0 < s1 -> 0 < s2 ->
  (Z.max a1 a2 <? Z.min (a1 + s1) (a2 + s2)) = true
  <-> ranges_intersect a1 s1 a2 s2.
Proof.
  intros H1 H2. rewrite Z.ltb_lt. unfold ranges_intersect. split.
  - intro H. exists (Z.max a1 a2). lia.
  - intros (x & Hx1 & Hx2). lia.
Qed.

(** [mem_intersect] on ranges that do not wrap. *)
Lemma mem_intersect_ok (a1 s1 a2 s2 : Z) (t : Task) :
  range_ok a1 s1 -> range_ok a2 s2 ->
  mem_intersect a1 s1 a2 s2 t
  = Ok (Z.max a1 a2 <? Z.min (a1 + s1) (a2 + s2)) t.
Proof.
  intros Hr1 Hr2. unfold mem_intersect, bind, ASSERT, ret.
  rewrite (uadd_range_ok _ _ Hr1), (uadd_range_ok _ _ Hr2).
  destruct Hr1 as (? & ? & ?), Hr2 as (? & ? & ?).
  destruct (Z.ltb_spec a1 (a1 + s1)); [|lia].
  destruct (Z.ltb_spec a2 (a2 + s2)); [|lia].
  reflexivity.
Qed.

(** [mem_intersect] on a range that wraps. *)
Lemma mem_intersect_wraps (a1 s1 a2 s2 : Z) (t : Task) :
  uadd a1 s1 <= a1 \/ uadd a2 s2 <= a2 ->
  mem_intersect a1 s1 a2 s2 t = Abort AssertRangeNoWrap t.
Proof.
  intro H. unfold mem_intersect, bind, ASSERT, ret.
  destruct (Z.ltb_spec a1 (uadd a1 s1)) as [H1|H1]; [|reflexivity].
  destruct (Z.ltb_spec a2 (uadd a2 s2)) as [H2|H2]; [|reflexivity].
  lia.
Qed.

Lemma quotient_fits (x s : Z) : 0 <= x < uintptr_modulus -> 0 < s ->
  0 <= x / s <= x.
Proof.
  intros Hx Hs. split.
  - apply Z.div_pos; lia.
  - apply Z.div_le_upper_bound; nia.
Qed.

(** The complete behaviour of [bound_iterations_for_watchpoint] on ranges
    that do not wrap. *)
Lemma bound_for_watchpoint_cases (t : Task) (R : Z) (d : DecodedInstruction)
    (w : WatchConfig) (iterations : Z) :
  range_ok R (operand_size d) ->
  range_ok (addr w) (num_bytes w) ->
  bound_iterations_for_watchpoint R d w iterations t
  = Ok (if Z.max R (addr w)
             <? Z.min (R + operand_size d) (addr w + num_bytes w)
        then 0
        else if df_flag (regs t) then
          if R <? addr w then iterations
          else Z.min iterations
                 ((R - (addr w + num_bytes w)) / operand_size d + 1)
        else
          if addr w <? R then iterations
          else Z.min iterations ((addr w - R) / operand_size d)) t.
Proof.
  intros HR Hw. unfold bound_iterations_for_watchpoint, bind, gets.
  rewrite mem_intersect_ok by assumption.
  destruct (Z.ltb_spec (Z.max R (addr w))
              (Z.min (R + operand_size d) (addr w + num_bytes w)))
    as [Hhit|Hmiss]; [reflexivity|].
  destruct HR as (HR0 & Hs & HRend), Hw as (Hw0 & Hn & Hwend).
  destruct (df_flag (regs t)); cbn [Z.ltb Z.compare].
  - destruct (Z.ltb_spec R (addr w)) as [Hlt|Hge]; [reflexivity|].
    unfold ret. do 2 f_equal.
    unfold usub, uadd.
    rewrite (wrap_small (addr w + num_bytes w)) by (unfold in_uintptr; lia).
    rewrite (wrap_small (R - _)) by (unfold in_uintptr; lia).
    apply wrap_small. unfold in_uintptr.
    pose proof (quotient_fits (R - (addr w + num_bytes w)) (operand_size d)).
    lia.
  - destruct (Z.ltb_spec (addr w) R) as [Hlt|Hge]; [reflexivity|].
    unfold ret. do 2 f_equal.
    unfold usub.
    rewrite (wrap_small (addr w - R)) by (unfold in_uintptr; lia).
    apply wrap_small. unfold in_uintptr.
    pose proof (quotient_fits (addr w - R) (operand_size d)).
    lia.
Qed.

(** [bound_iterations_for_watchpoint] only reads the tracee. *)
Lemma bound_for_watchpoint_pure (R : Z) (d : DecodedInstruction)
    (w : WatchConfig) (iterations : Z) (t : Task) (v : Z) (t' : Task) :
  bound_iterations_for_watchpoint R d w iterations t = Ok v t' -> t' = t.
Proof.
  unfold bound_iterations_for_watchpoint, mem_intersect, bind, gets, ASSERT,
    ret.
  repeat match goal with
         | |- context [if ?c then _ else _] => destruct c
         end; intro H; congruence.
Qed.

(** On ranges that do not wrap, [bound_iterations_for_watchpoint] computes
    what the spec's words say. *)
Lemma bound_for_watchpoint_matches_spec (t : Task) (R : Z)
    (d : DecodedInstruction) (w : WatchConfig) (iterations : Z) :
  range_ok R (operand_size d) ->
  range_ok (addr w) (num_bytes w) ->
  bound_iterations_for_watchpoint R d w iterations t
  = Ok (spec_tighten_for_watchpoint (direction_of (regs t)) (operand_size d)
          R w iterations) t.
Proof.
  intros HR Hw. rewrite bound_for_watchpoint_cases by assumption.
  f_equal. unfold spec_tighten_for_watchpoint, direction_of.
  destruct HR as (HR0 & Hs & HRend), Hw as (Hw0 & Hn & Hwend).
  destruct (Z.ltb_spec (Z.max R (addr w))
              (Z.min (R + operand_size d) (addr w + num_bytes w)));
    destruct (Z.ltb_spec R (addr w + num_bytes w));
    destruct (Z.ltb_spec (addr w) (R + operand_size d));
    cbn [andb]; try lia; try reflexivity;
    destruct (df_flag (regs t)); cbn [Z.ltb Z.compare];
    destruct (Z.ltb_spec R (addr w)); destruct (Z.ltb_spec (addr w) R);
    destruct (Z.leb_spec R (addr w)); destruct (Z.leb_spec (addr w) R);
    try lia; reflexivity.
Qed.

(** The loop over the watchpoints likewise. *)
Lemma bound_for_watchpoints_matches_spec (t : Task) (d : DecodedInstruction)
    (ws : list WatchConfig) :
  range_ok (si (regs t)) (operand_size d) ->
  range_ok (di (regs t)) (operand_size d) ->
  Forall (fun w => range_ok (addr w) (num_bytes w)) ws ->
  forall iterations,
    bound_iterations_for_watchpoints d ws iterations t
    = Ok (spec_bound_for_watchpoints (direction_of (regs t)) (operand_size d)
            (si (regs t)) (di (regs t)) ws iterations) t.
Proof.
  intros Hsi Hdi Hall.
  induction Hall as [|w rest Hw _ IH]; intro iterations.
  - reflexivity.
  - cbn [bound_iterations_for_watchpoints spec_bound_for_watchpoints
         fold_left].
    unfold bind at 1, gets at 1. unfold bind at 1.
    rewrite (bound_for_watchpoint_matches_spec t _ d w iterations Hsi Hw).
    unfold bind at 1, gets at 1. unfold bind at 1.
    rewrite (bound_for_watchpoint_matches_spec t _ d w _ Hdi Hw).
    apply IH.
Qed.

(** C4 (amended).  For a watchpoint [w] and an address register value [R]
    whose ranges are not empty and end within the address space, with [size]
    the operand size: if
    [R, R+size) intersects [w.addr, w.addr+w.num_bytes) the bound becomes 0;
    otherwise, moving forward (DF = 0), it is tightened to
    [(w.addr - R) / size] when [w.addr >= R] and left unchanged when
    [w.addr < R]; moving backward (DF = 1), it is tightened to
    [(R - (w.addr + w.num_bytes)) / size + 1] when [w.addr <= R] and left
    unchanged when [w.addr > R].  The round applies this to SI and then to
    DI for every watchpoint: when the operands at SI and at DI and all the
    watchpoints lie within the address space, the loop over the watchpoints
    yields the bound that the rule gives when it is applied to each
    watchpoint in turn, with SI and then with DI. *)
Theorem watchpoint_bound_rule (t : Task) (R : Z) (decoded : DecodedInstruction)
    (w : WatchConfig) (rest : list WatchConfig) (iterations : Z) :
  let size := operand_size decoded in
  let hit := ranges_intersect R size (addr w) (num_bytes w) in
  range_ok R size ->
  range_ok (addr w) (num_bytes w) ->
  (exists v,
    bound_iterations_for_watchpoint R decoded w iterations t = Ok v t /\
    (hit -> v = 0) /\
    (~ hit -> df_flag (regs t) = false -> R <= addr w ->
     v = Z.min iterations ((addr w - R) / size)) /\
    (~ hit -> df_flag (regs t) = false -> addr w < R -> v = iterations) /\
    (~ hit -> df_flag (regs t) = true -> addr w <= R ->
     v = Z.min iterations ((R - (addr w + num_bytes w)) / size + 1)) /\
    (~ hit -> df_flag (regs t) = true -> R < addr w -> v = iterations))
  /\
  bound_iterations_for_watchpoints decoded (w :: rest) iterations t
  = (after_si <- bound_iterations_for_watchpoint (si (regs t)) decoded w
                   iterations ;;
     after_di <- bound_iterations_for_watchpoint (di (regs t)) decoded w
                   after_si ;;
     bound_iterations_for_watchpoints decoded rest after_di) t
  /\
  (range_ok (si (regs t)) size -> range_ok (di (regs t)) size ->
   Forall (fun w' => range_ok (addr w') (num_bytes w')) rest ->
   bound_iterations_for_watchpoints decoded (w :: rest) iterations t
   = Ok (spec_bound_for_watchpoints (direction_of (regs t)) size
           (si (regs t)) (di (regs t)) (w :: rest) iterations) t).
Proof.
  cbn zeta. intros HR Hw. split; [|split].
  2:{ cbn [bound_iterations_for_watchpoints]. unfold bind, gets.
      destruct (bound_iterations_for_watchpoint (si (regs t)) decoded w
                  iterations t) as [v t'| |] eqn:E; try reflexivity.
      apply bound_for_watchpoint_pure in E. now subst t'. }
  2:{ intros Hsi Hdi Hrest.
      apply bound_for_watchpoints_matches_spec; try assumption.
      now constructor. }
  eexists. split; [apply bound_for_watchpoint_cases; assumption|].
  destruct HR as (HR0 & Hs & HRend), Hw as (Hw0 & Hn & Hwend).
  pose proof (overlap_test_spec R (operand_size decoded) (addr w)
                (num_bytes w) Hs Hn) as Hspec.
  destruct (Z.max R (addr w) <? _) eqn:Htest.
  - repeat split; try reflexivity; intro Hno; exfalso; apply Hno;
      now apply Hspec.
  - assert (~ ranges_intersect R (operand_size decoded) (addr w) (num_bytes w))
      as Hno by (intro Hy; apply Hspec in Hy; discriminate).
    split; [intro Hy; contradiction|].
    repeat split; intros _ Hdf Hord; rewrite Hdf.
    + destruct (Z.ltb_spec (addr w) R); [lia|reflexivity].
    + destruct (Z.ltb_spec (addr w) R); [reflexivity|lia].
    + destruct (Z.ltb_spec R (addr w)); [lia|reflexivity].
    + destruct (Z.ltb_spec R (addr w)); [reflexivity|lia].
Qed.

(** Ranges that wrap, in general.  On ranges that do not wrap the bounding
    never aborts, and a watchpoint that lies behind the register in the
    direction of travel (reachable only by wrapping round the address space)
    leaves the bound unchanged.  A register range or a watchpoint range that
    itself wraps ([a + s] is not above [a] modulo 2^64) fails the assertion
    of [mem_intersect]: the bounding aborts. *)
Lemma wrapping_ranges_abort (t : Task) (R : Z) (decoded : DecodedInstruction)
    (w : WatchConfig) (iterations : Z) :
  let size := operand_size decoded in
  let hit := ranges_intersect R size (addr w) (num_bytes w) in
  (range_ok R size -> range_ok (addr w) (num_bytes w) ->
   exists v,
     bound_iterations_for_watchpoint R decoded w iterations t = Ok v t /\
     (~ hit -> df_flag (regs t) = false -> addr w < R -> v = iterations) /\
     (~ hit -> df_flag (regs t) = true -> R < addr w -> v = iterations))
  /\
  (uadd R size <= R \/ uadd (addr w) (num_bytes w) <= addr w ->
   bound_iterations_for_watchpoint R decoded w iterations t
   = Abort AssertRangeNoWrap t).
Proof.
  cbn zeta. split.
  - intros HR Hw. eexists.
    split; [apply bound_for_watchpoint_cases; assumption|].
    destruct HR as (_ & Hs & _), Hw as (_ & Hn & _).
    pose proof (overlap_test_spec R (operand_size decoded) (addr w)
                  (num_bytes w) Hs Hn) as Hspec.
    destruct (Z.max R (addr w) <? _).
    { split; intro Hno; exfalso; apply Hno; now apply Hspec. }
    split; intros _ Hdf Hord; rewrite Hdf.
    + destruct (Z.ltb_spec (addr w) R); [reflexivity|lia].
    + destruct (Z.ltb_spec R (addr w)); [reflexivity|lia].
  - intro Hwrap. unfold bound_iterations_for_watchpoint, bind, gets.
    now rewrite mem_intersect_wraps.
Qed.


(* ------------------------------------------------------------------ *)
(** ** Reasoning about the monad *)

Lemma bind_ok {A B} (m : M A) (k : A -> M B) (t : Task) (b : B) (t' : Task) :
  bind m k t = Ok b t' -> exists a t1, m t = Ok a t1 /\ k a t1 = Ok b t'.
Proof.
  unfold bind. destruct (m t) as [a t1| |]; try discriminate.
  intro H. now exists a, t1.
Qed.

(** Case analysis on every test of a goal that has been unfolded down to
    the primitives. *)
Ltac split_tests :=
  repeat match goal with
         | |- context [if ?c then _ else _] => destruct c eqn:?
         | |- context [match ?c with Some _ => _ | None => _ end] =>
           destruct c eqn:?
         end.

(* ------------------------------------------------------------------ *)
(** ** The bounder reads the tracee and yields a positive bound *)

Lemma bound_for_state_nonneg ip0 d cur_cx it s :
  0 <= it -> 0 <= bound_iterations_for_state ip0 d cur_cx it s.
Proof.
  intro H. unfold bound_iterations_for_state, usub.
  pose proof (wrap_nonneg (wrap (cur_cx - cx s) - 1)).
  split_tests; lia.
Qed.

Lemma bound_for_states_nonneg ip0 d cur_cx states :
  forall it, 0 <= it ->
    0 <= bound_iterations_for_states ip0 d cur_cx states it.
Proof.
  unfold bound_iterations_for_states.
  induction states as [|s rest IH]; intros it H; cbn [fold_left]; auto.
  apply IH. now apply bound_for_state_nonneg.
Qed.

Lemma bound_for_watchpoint_nonneg R d w it t v t' :
  bound_iterations_for_watchpoint R d w it t = Ok v t' -> 0 <= it -> 0 <= v.
Proof.
  unfold bound_iterations_for_watchpoint, mem_intersect, bind, gets, ASSERT,
    ret.
  pose proof (wrap_nonneg (usub (addr w) R / operand_size d)).
  pose proof (wrap_nonneg
    (usub R (uadd (addr w) (num_bytes w)) / operand_size d + 1)).
  split_tests; intros E Hit; inversion E; subst; lia.
Qed.

Lemma bound_for_watchpoints_pure d ws :
  forall it t v t',
    bound_iterations_for_watchpoints d ws it t = Ok v t' ->
    t' = t /\ (0 <= it -> 0 <= v).
Proof.
  induction ws as [|w rest IH]; intros it t v t' H.
  - inversion H. subst. auto.
  - cbn [bound_iterations_for_watchpoints] in H.
    apply bind_ok in H. destruct H as (r1 & t1 & E1 & H).
    inversion E1; subst r1 t1; clear E1.
    apply bind_ok in H. destruct H as (i1 & t1 & E1 & H).
    pose proof (bound_for_watchpoint_nonneg _ _ _ _ _ _ _ E1) as N1.
    apply bound_for_watchpoint_pure in E1. subst t1.
    apply bind_ok in H. destruct H as (r2 & t2 & E2 & H).
    inversion E2; subst r2 t2; clear E2.
    apply bind_ok in H. destruct H as (i2 & t2 & E2 & H).
    pose proof (bound_for_watchpoint_nonneg _ _ _ _ _ _ _ E2) as N2.
    apply bound_for_watchpoint_pure in E2. subst t2.
    apply IH in H. destruct H as (-> & N3). auto.
Qed.

Lemma bound_iterations_pure ip0 d states t plan t' :
  bound_iterations ip0 d states t = Ok plan t' ->
  t' = t /\ forall c it, plan = Some (c, it) -> 0 < it.
Proof.
  unfold bound_iterations. intro H.
  apply bind_ok in H. destruct H as (c & t1 & E & H).
  inversion E; subst c t1; clear E.
  destruct (cx (regs t) =? 0).
  { inversion H. split; [reflexivity|]. intros; discriminate. }
  apply bind_ok in H. destruct H as (ws & t1 & E & H).
  inversion E; subst ws t1; clear E.
  apply bind_ok in H. destruct H as (it & t1 & E & H).
  apply bound_for_watchpoints_pure in E. destruct E as (-> & N).
  assert (0 <= it) as Hit.
  { apply N. apply bound_for_states_nonneg. apply wrap_nonneg. }
  destruct (Z.eqb_spec it 0) as [Hz|Hnz]; inversion H; subst.
  - split; [reflexivity|]. intros; discriminate.
  - split; [reflexivity|]. intros c' it' E. inversion E. subst. lia.
Qed.

Lemma terminates_bind {A B} (m : M A) (k : A -> M B) (t : Task) :
  terminates m t ->
  (forall a t1, m t = Ok a t1 -> terminates (k a) t1) ->
  terminates (bind m k) t.
Proof.
  unfold terminates, bind. intros Hm Hk.
  destruct (m t) as [a t1| |]; auto. exact (Hk a t1 eq_refl).
Qed.

Lemma terminates_verdict {A} (m : M A) (t : Task) :
  terminates m t -> verdict (m t) <> TimedOut.
Proof. unfold terminates. destruct (m t); simpl; congruence. Qed.


(* ------------------------------------------------------------------ *)
(** ** The routine on an arbitrary tracee *)

Section EngineFacts.

Variable SIGTRAP : Z.
Variable DS_WATCHPOINT_ANY : Z.
Variable junk : list Z.
Variable hw : ResumeRequest -> Task -> Stop.
Variable watchpoint_fits : Z -> Z -> WatchType -> Task -> bool.
Variable breakpoint_fits : Z -> TrapType -> Task -> bool.

(** The routine and its parts on the tracee of this section. *)
Local Abbreviation next_stop' := (next_stop hw).
Local Abbreviation tail_phase' := (tail_phase SIGTRAP DS_WATCHPOINT_ANY hw).
Local Abbreviation batched_phase' :=
  (batched_phase SIGTRAP DS_WATCHPOINT_ANY hw watchpoint_fits breakpoint_fits).
Local Abbreviation execute_iterations' :=
  (execute_iterations SIGTRAP DS_WATCHPOINT_ANY hw
    watchpoint_fits breakpoint_fits).
Local Abbreviation round' :=
  (round SIGTRAP DS_WATCHPOINT_ANY hw watchpoint_fits breakpoint_fits).
Local Abbreviation rounds' :=
  (rounds SIGTRAP DS_WATCHPOINT_ANY hw watchpoint_fits breakpoint_fits).
Local Abbreviation fast_forward_through_instruction' :=
  (fast_forward_through_instruction SIGTRAP DS_WATCHPOINT_ANY junk hw
     watchpoint_fits breakpoint_fits).
Local Abbreviation stepped' := (stepped hw).

Lemma stepped_trans t1 t2 t3 :
  stepped' t1 t2 -> stepped' t2 t3 -> stepped' t1 t3.
Proof.
  intros (V1 & _ & C1) (V2 & D2 & C2). repeat split.
  - congruence.
  - exact D2.
  - intro H. specialize (C1 H). specialize (C2 H). lia.
Qed.

Lemma tail_phase_effect (ip0 : Z) :
  forall n it t v t',
    tail_phase' n ip0 it t = Ok v t' ->
    stepped' t t' \/
    (t' = t /\ ~ ((0 < n)%nat /\ 0 < it /\ ip (regs t) = ip0)).
Proof.
  induction n as [|n IH]; intros it t v t' H.
  - inversion H; subst. right. split; [reflexivity|]. lia.
  - cbn [tail_phase] in H.
    apply bind_ok in H. destruct H as (cur & t0 & E & H).
    inversion E; subst cur t0; clear E.
    destruct (Z.ltb_spec 0 it) as [Hit|Hit]; cbn [andb] in H.
    2:{ inversion H; subst. right. split; [reflexivity|]. lia. }
    destruct (Z.eqb_spec (ip (regs t)) ip0) as [Hip|Hip].
    2:{ inversion H; subst. right. split; [reflexivity|]. tauto. }
    left.
    apply bind_ok in H. destruct H as ([] & t1 & E & H).
    inversion E; subst t1; clear E.
    apply bind_ok in H. destruct H as ([] & t1 & E & H).
    unfold assert_sigtrap, bind, gets, ASSERT in E.
    destruct (_ =? SIGTRAP); inversion E; subst t1; clear E.
    apply bind_ok in H. destruct H as (status & t1 & E & H).
    inversion E; subst status t1; clear E.
    apply bind_ok in H. destruct H as ([] & t1 & E & H).
    unfold ASSERT in E.
    destruct (_ =? 0); inversion E; subst t1; clear E.
    apply IH in H.
    assert (stepped' t
      (mkTask (arch (next_stop' RESUME_SINGLESTEP t))
         (regs (next_stop' RESUME_SINGLESTEP t))
         (pending_sig (next_stop' RESUME_SINGLESTEP t)) 0
         (mem (next_stop' RESUME_SINGLESTEP t))
         (vm (next_stop' RESUME_SINGLESTEP t))
         (debug_log (next_stop' RESUME_SINGLESTEP t)))) as Hfirst.
    { repeat split. intro Hcx. exact (Hcx _ _). }
    destruct H as [H|(-> & _)]; [|exact Hfirst].
    eapply stepped_trans; eassumption.
Qed.

Lemma drop_added_breakpoint (a : Z) (k : TrapType) (l : list (Z * TrapType)) :
  drop_breakpoint a k ((a, k) :: l) = l.
Proof.
  cbn. rewrite Z.eqb_refl. now destruct k.
Qed.

Ltac unfold_batched_phase :=
  unfold batched_phase, assert_sigtrap, save_watchpoints,
    remove_all_watchpoints, add_watchpoint, add_breakpoint, remove_breakpoint,
    restore_watchpoints, resume_execution, consume_debug_status,
    next_stop, task_ip, set_regs, LOG, ASSERT, bind, gets, modify,
    ret, with_vm, with_regs;
  cbn -[drop_breakpoint]; rewrite ?Z.eqb_refl; cbn [andb].

(** Whether the address space takes the temporary watchpoint, and then
    the internal breakpoint. *)
Ltac case_watchpoint_fits Hfits :=
  match goal with
  | |- context [watchpoint_fits ?a ?n ?k ?x] =>
    destruct (watchpoint_fits a n k x) eqn:Hfits
  end;
  cbn -[drop_breakpoint]; rewrite ?Z.eqb_refl; cbn [andb].

Ltac case_breakpoint_fits Hfits :=
  match goal with
  | |- context [breakpoint_fits ?a ?k ?x] =>
    destruct (breakpoint_fits a k x) eqn:Hfits
  end;
  cbn -[drop_breakpoint]; rewrite ?Z.eqb_refl; cbn [andb].

Lemma batched_phase_effect ip0 d cur_cx direction watch_offset it t v t' :
  batched_phase' ip0 d cur_cx direction watch_offset it t = Ok v t' ->
  stepped' t t'.
Proof.
  unfold_batched_phase.
  case_watchpoint_fits Hwatch; [|discriminate].
  case_breakpoint_fits Hfits; [|discriminate].
  match goal with
  | |- context [hw RESUME_CONT ?x] =>
    assert (cx_nonincreasing hw ->
            cx (stop_regs (hw RESUME_CONT x)) <= cx (regs t)) as Hs
      by (intro Hcx; exact (Hcx RESUME_CONT x));
    revert Hs; generalize (hw RESUME_CONT x)
  end.
  intros s Hs.
  split_tests; intro H; inversion H; subst; clear H;
    unfold stepped; cbn -[drop_breakpoint]; rewrite ?Z.eqb_refl; cbn [andb];
    (repeat split; [now destruct (vm t) | exact Hs]).
Qed.

(** A temporary watchpoint that the address space refuses is fatal on the
    spot, with the caller's watchpoints parked. *)
Lemma batched_phase_refused_watchpoint ip0 d cur_cx direction watch_offset
    it t :
  let watch_di :=
    uadd (di (regs t)) (umul direction (usub watch_offset BYTES_COALESCED)) in
  watchpoint_fits watch_di 1 WATCH_READWRITE (parked watch_di t) = false ->
  batched_phase' ip0 d cur_cx direction watch_offset it t
  = Abort AssertWatchpointAdded (parked watch_di t).
Proof.
  cbn zeta. unfold parked, parked_tables. intro Hrefused.
  unfold_batched_phase.
  case_watchpoint_fits Hwatch; [discriminate|reflexivity].
Qed.

(** A breakpoint that the address space refuses is fatal before the
    tracee is resumed, with the temporary watchpoint installed. *)
Lemma batched_phase_refused_breakpoint ip0 d cur_cx direction watch_offset
    it t :
  let watch_di :=
    uadd (di (regs t)) (umul direction (usub watch_offset BYTES_COALESCED)) in
  watchpoint_fits watch_di 1 WATCH_READWRITE (parked watch_di t) = true ->
  breakpoint_fits (uadd ip0 (length d)) TRAP_BKPT_INTERNAL
    (watching watch_di t) = false ->
  batched_phase' ip0 d cur_cx direction watch_offset it t
  = Abort AssertBreakpointAdded (watching watch_di t).
Proof.
  cbn zeta. unfold parked, parked_tables, watching, watching_tables.
  intros Htaken Hrefused.
  unfold_batched_phase.
  case_watchpoint_fits Hwatch; [|discriminate].
  case_breakpoint_fits Hfits; [discriminate|reflexivity].
Qed.

(** Once watchpoint and breakpoint are in, a stop of the batched phase that
    is not a trap is fatal on the spot, with the tables still armed. *)
Lemma batched_phase_fatal_stop ip0 d cur_cx direction watch_offset it t :
  let watch_di :=
    uadd (di (regs t)) (umul direction (usub watch_offset BYTES_COALESCED)) in
  let armed_t := armed (uadd ip0 (length d)) watch_di t in
  watchpoint_fits watch_di 1 WATCH_READWRITE (parked watch_di t) = true ->
  breakpoint_fits (uadd ip0 (length d)) TRAP_BKPT_INTERNAL
    (watching watch_di t) = true ->
  stop_sig (hw RESUME_CONT armed_t) <> SIGTRAP ->
  batched_phase' ip0 d cur_cx direction watch_offset it t
  = Abort AssertPendingSigtrap (next_stop' RESUME_CONT armed_t).
Proof.
  cbn zeta.
  unfold armed, armed_tables, parked, parked_tables, watching,
    watching_tables.
  intros Hwatching Htaken Hsig.
  unfold_batched_phase.
  case_watchpoint_fits Hwatch; [|discriminate].
  case_breakpoint_fits Hfits; [|discriminate].
  match goal with
  | |- context [if ?c =? SIGTRAP then _ else _] =>
    destruct (Z.eqb_spec c SIGTRAP) as [E|_]
  end; [contradiction|reflexivity].
Qed.

Lemma execute_iterations_effect ip0 d cur_cx it t r t' :
  0 < it -> ip (regs t) = ip0 ->
  execute_iterations' ip0 d cur_cx it t = Ok r t' ->
  r = regs t /\ stepped' t t'.
Proof.
  intros Hit Hip H. unfold execute_iterations in H.
  apply bind_ok in H. destruct H as ([] & t1 & E & H).
  inversion E; subst t1; clear E.
  apply bind_ok in H. destruct H as (r0 & t1 & E & H).
  inversion E; subst r0 t1; clear E. cbn [regs] in H.
  apply bind_ok in H. destruct H as (it' & t1 & E & H).
  apply bind_ok in H. destruct H as ([] & t2 & E2 & H).
  inversion E2; subst t2; clear E2.
  apply bind_ok in H. destruct H as (left & t3 & E3 & H).
  inversion H; subst r t3; clear H.
  split; [reflexivity|].
  apply tail_phase_effect in E3.
  destruct (BYTES_COALESCED <? _).
  - apply batched_phase_effect in E.
    assert (stepped' t t1) as Hb.
    { destruct E as (V & D & C). repeat split; assumption. }
    destruct E3 as [E3|(-> & _)].
    + eapply stepped_trans; [exact Hb|].
      destruct E3 as (V & D & C). repeat split; assumption.
    + destruct Hb as (V & D & C). repeat split; assumption.
  - inversion E; subst it' t1; clear E.
    destruct E3 as [E3|(_ & Hno)].
    + destruct E3 as (V & D & C). repeat split; assumption.
    + exfalso. apply Hno. cbn. repeat split; try assumption. lia.
Qed.

Lemma retry_or_done_effect ip0 d states states_copy r t res t' :
  retry_or_done ip0 d states states_copy r t = Ok res t' ->
  vm t' = vm t /\ debug_status t' = debug_status t /\
  match res with
  | None => ip (regs t') = ip0 /\ regs t' = regs t
  | Some (states', states_copy') =>
    states_copy = [] /\ states_copy' = states ++ [regs t] /\
    states' = states_copy' /\ regs t' = r
  end.
Proof.
  unfold retry_or_done, task_ip, set_regs, LOG, ASSERT, bind, gets, modify,
    ret, with_regs.
  destruct (Z.eqb_spec (ip (regs t)) ip0) as [Hip|Hip]; cbn [negb].
  - intro H. inversion H; subst. cbn. auto.
  - destruct (_ && _); [|discriminate].
    destruct states_copy; [|discriminate].
    intro H. inversion H; subst. cbn. auto 10.
Qed.

Lemma round_effect ip0 d states states_copy t res t' :
  ip (regs t) = ip0 ->
  round' ip0 d states states_copy t = Ok res t' ->
  match res with
  | None => t' = t \/ (ip (regs t') = ip0 /\ stepped' t t')
  | Some (states', states_copy') =>
    states_copy = [] /\ states_copy' <> [] /\ states' = states_copy' /\
    regs t' = regs t /\ vm t' = vm t /\ debug_status t' = 0
  end.
Proof.
  intros Hip H. unfold round in H.
  apply bind_ok in H. destruct H as (plan & t1 & E & H).
  apply bound_iterations_pure in E. destruct E as (-> & Hpos).
  destruct plan as [[cur_cx it]|].
  2:{ inversion H; subst. now left. }
  specialize (Hpos _ _ eq_refl).
  apply bind_ok in H. destruct H as (r & t2 & E & H).
  apply execute_iterations_effect in E; [|assumption..].
  destruct E as (-> & V & D & C).
  apply retry_or_done_effect in H. destruct H as (V' & D' & H).
  destruct res as [[states' states_copy']|].
  - destruct H as (-> & -> & -> & Hr). repeat split; try congruence.
    now destruct states.
  - destruct H as (Hip' & Hr). right. split; [assumption|].
    repeat split; try congruence. intro Hcx. rewrite Hr. auto.
Qed.

Lemma rounds_effect ip0 d :
  forall fuel states states_copy t t',
    ip (regs t) = ip0 ->
    rounds' fuel ip0 d states states_copy t = Ok tt t' ->
    t' = t \/ (ip (regs t') = ip0 /\ stepped' t t').
Proof.
  induction fuel as [|fuel IH]; intros states states_copy t t' Hip H.
  - discriminate.
  - cbn [rounds] in H.
    apply bind_ok in H. destruct H as (res & t1 & E & H).
    apply round_effect in E; [|assumption].
    destruct res as [[states' states_copy']|].
    + destruct E as (_ & _ & _ & Hr & V & D).
      apply IH in H; [|congruence]. right.
      destruct H as [->|(Hip' & V' & D' & C')].
      * repeat split; try congruence. intros _. rewrite Hr. lia.
      * repeat split; try congruence. intro Hcx. rewrite <- Hr. auto.
    + inversion H; subst. exact E.
Qed.

(** Where the routine can return: straight after the trial step, with the
    tracee exactly as that step left it, or at the entry IP after it has
    resumed the tracee again. *)
Lemma fast_forward_effect fuel states t t' :
  fast_forward_through_instruction' fuel states t = Ok tt t' ->
  t' = next_stop' RESUME_SINGLESTEP t \/
  (ip (regs t') = ip (regs t) /\ stepped' (next_stop' RESUME_SINGLESTEP t) t').
Proof.
  unfold fast_forward_through_instruction. intro H.
  apply bind_ok in H. destruct H as (ip0 & t0 & E & H).
  inversion E; subst ip0 t0; clear E.
  apply bind_ok in H. destruct H as ([] & t1 & E & H).
  assert (t1 = next_stop' RESUME_SINGLESTEP t) as Ht1 by now inversion E.
  clear E.
  apply bind_ok in H. destruct H as ([] & t2 & E & H).
  unfold assert_sigtrap, bind, gets, ASSERT in E.
  destruct (_ =? SIGTRAP); inversion E; subst t2; clear E.
  rewrite <- Ht1. clear Ht1.
  apply bind_ok in H. destruct H as (cur & t0 & E & H).
  inversion E; subst cur t0; clear E.
  destruct (Z.eqb_spec (ip (regs t1)) (ip (regs t))) as [Hip|Hip];
    cbn [negb] in H.
  2:{ inversion H. now left. }
  apply bind_ok in H. destruct H as (bkpt & t0 & E & H).
  inversion E; subst bkpt t0; clear E.
  destruct (negb _). { inversion H. now left. }
  apply bind_ok in H. destruct H as (status & t0 & E & H).
  inversion E; subst status t0; clear E.
  destruct (negb _). { inversion H. now left. }
  apply bind_ok in H. destruct H as (r & t0 & E & H).
  inversion E; subst r t0; clear E.
  destruct (existsb _ states). { inversion H. now left. }
  apply bind_ok in H. destruct H as (a & t0 & E & H).
  inversion E; subst a t0; clear E.
  destruct (_ && _). { inversion H. now left. }
  apply bind_ok in H. destruct H as (buf & t0 & E & H).
  inversion E; subst buf t0; clear E.
  destruct (decode_x86_string_instruction _) as [d|].
  2:{ inversion H. now left. }
  apply rounds_effect in H; [|assumption].
  destruct H as [Ht|(Hip' & Hs)]; [now left|].
  right. split; [congruence|exact Hs].
Qed.

(** C2 (amended).  Whenever the routine returns (soft aborts, the end of
    the batched phase, the retry after a flag exit), the breakpoints, the
    watchpoints and the stack of saved watchpoint sets are what they were at
    entry.  When the continue of the batched phase (reached once the
    address space has taken the temporary watchpoint and the internal
    breakpoint) ends in a stop that is not a trap, the routine does not
    return: it aborts on its assertion,
    with the internal breakpoint and the temporary watchpoint installed and
    the caller's watchpoints still on the save stack. *)
Theorem tables_restored_on_return fuel states t ip0 d cur_cx direction
    watch_offset it :
  (forall t',
     fast_forward_through_instruction SIGTRAP DS_WATCHPOINT_ANY junk hw
       watchpoint_fits breakpoint_fits fuel states t = Ok tt t' ->
     vm t' = vm t)
  /\
  (let watch_di :=
     uadd (di (regs t)) (umul direction (usub watch_offset BYTES_COALESCED)) in
   let armed_t := armed (uadd ip0 (length d)) watch_di t in
   watchpoint_fits watch_di 1 WATCH_READWRITE (parked watch_di t) = true ->
   breakpoint_fits (uadd ip0 (length d)) TRAP_BKPT_INTERNAL
     (watching watch_di t) = true ->
   stop_sig (hw RESUME_CONT armed_t) <> SIGTRAP ->
   exists t',
     batched_phase SIGTRAP DS_WATCHPOINT_ANY hw watchpoint_fits
       breakpoint_fits ip0 d cur_cx direction watch_offset it t
     = Abort AssertPendingSigtrap t' /\
     vm t' = armed_tables (uadd ip0 (length d)) watch_di (vm t)).
Proof.
  split.
  - intros t' H. apply fast_forward_effect in H.
    destruct H as [->|(_ & V & _)]; [reflexivity|exact V].
  - cbn zeta. intros Hwatch Hfits Hsig. eexists. split.
    + apply batched_phase_fatal_stop; assumption.
    + reflexivity.
Qed.

(** C1 (amended).  Whenever the routine returns, either the tracee is at
    the entry IP, with a CX that is not above the CX at entry provided no
    stop of the tracee ever shows a larger CX than the state it resumed
    from; or the trial single-step itself moved the IP away and the routine
    returned at once, leaving the tracee exactly as that step left it,
    wherever that is. *)
Theorem return_ip_contract fuel states t t' :
  fast_forward_through_instruction SIGTRAP DS_WATCHPOINT_ANY junk hw
    watchpoint_fits breakpoint_fits fuel states t = Ok tt t' ->
  (ip (regs t') = ip (regs t) /\
   (cx_nonincreasing hw -> cx (regs t') <= cx (regs t)))
  \/
  (t' = next_stop hw RESUME_SINGLESTEP t /\ ip (regs t') <> ip (regs t)).
Proof.
  intro H. apply fast_forward_effect in H.
  destruct H as [->|(Hip & _ & _ & C)].
  - destruct (Z.eq_dec (ip (regs (next_stop' RESUME_SINGLESTEP t)))
                (ip (regs t))) as [Hip|Hip].
    + left. split; [exact Hip|]. intro Hcx. exact (Hcx _ _).
    + right. now split.
  - left. split; [exact Hip|]. intro Hcx.
    pose proof (Hcx RESUME_SINGLESTEP t). specialize (C Hcx).
    cbn in C. lia.
Qed.



(* ------------------------------------------------------------------ *)
(** ** The retry happens at most once, and the loop ends *)

(** Walk down the binds and tests of a goal [terminates m t]. *)
Ltac no_timeout :=
  repeat first
    [ progress cbv beta
    | match goal with
      | |- terminates (bind _ _) _ => apply terminates_bind; [|intros ? ? _]
      | |- terminates (if ?c then _ else _) _ => destruct c
      | |- terminates (match ?c with Some _ => _ | None => _ end) _ =>
        destruct c
      | |- terminates (ret _) _ => exact I
      | |- terminates (gets _) _ => exact I
      | |- terminates (modify _) _ => exact I
      | |- terminates (LOG _) _ => exact I
      | |- terminates (resume_execution _ _) _ => exact I
      | |- terminates consume_debug_status _ => exact I
      | |- terminates task_ip _ => exact I
      | |- terminates (ASSERT ?c _) _ =>
        unfold terminates, ASSERT; now destruct c
      | |- terminates (assert_sigtrap _) _ =>
        unfold terminates, assert_sigtrap, bind, gets, ASSERT;
        now destruct (_ =? _)
      end ].

Lemma tail_phase_terminates ip0 :
  forall n it t, terminates (tail_phase' n ip0 it) t.
Proof.
  induction n as [|n IH]; intros it t; cbn [tail_phase].
  - exact I.
  - no_timeout. apply IH.
Qed.

Lemma bound_for_watchpoints_terminates d ws :
  forall it t, terminates (bound_iterations_for_watchpoints d ws it) t.
Proof.
  induction ws as [|w rest IH]; intros it t;
    cbn [bound_iterations_for_watchpoints].
  - exact I.
  - no_timeout; try apply IH;
      unfold terminates, bound_iterations_for_watchpoint, mem_intersect,
        bind, gets, ASSERT, ret; split_tests; exact I.
Qed.

Lemma batched_phase_terminates ip0 d cur_cx direction watch_offset it t :
  terminates (batched_phase' ip0 d cur_cx direction watch_offset it) t.
Proof.
  unfold terminates. unfold_batched_phase.
  case_watchpoint_fits Hwatch; [|exact I].
  case_breakpoint_fits Hfits; [|exact I].
  match goal with
  | |- context [hw RESUME_CONT ?x] => generalize (hw RESUME_CONT x)
  end.
  intro s. split_tests; exact I.
Qed.

Lemma execute_iterations_terminates ip0 d cur_cx it t :
  terminates (execute_iterations' ip0 d cur_cx it) t.
Proof.
  unfold execute_iterations.
  apply terminates_bind; [exact I|]. intros _ t1 _.
  apply terminates_bind; [exact I|]. intros r t2 _.
  apply terminates_bind.
  { destruct (_ <? _); [apply batched_phase_terminates|exact I]. }
  intros it' t3 _.
  apply terminates_bind; [exact I|]. intros _ t4 _.
  apply terminates_bind; [apply tail_phase_terminates|]. intros; exact I.
Qed.

Lemma round_terminates ip0 d states states_copy t :
  terminates (round' ip0 d states states_copy) t.
Proof.
  unfold round.
  apply terminates_bind.
  { unfold bound_iterations.
    apply terminates_bind; [exact I|]. intros cur_cx t1 _.
    destruct (cur_cx =? 0); [exact I|].
    apply terminates_bind; [exact I|]. intros ws t2 _.
    apply terminates_bind; [apply bound_for_watchpoints_terminates|].
    intros it t3 _. now destruct (it =? 0). }
  intros [[cur_cx it]|] t1 _; [|exact I].
  apply terminates_bind; [apply execute_iterations_terminates|].
  intros r t2 _.
  unfold terminates, retry_or_done, task_ip, set_regs, LOG, ASSERT, bind,
    gets, modify, ret.
  split_tests; exact I.
Qed.

(** A round asks for another turn only when [states_copy] is empty, and
    then hands on a non-empty one. *)
Lemma round_retry_needs_empty_copy ip0 d states states_copy t s' c' t' :
  round' ip0 d states states_copy t = Ok (Some (s', c')) t' ->
  states_copy = [] /\ c' <> [].
Proof.
  unfold round. intro H.
  apply bind_ok in H. destruct H as (plan & t1 & _ & H).
  destruct plan as [[cur_cx it]|]; [|discriminate].
  apply bind_ok in H. destruct H as (r & t2 & _ & H).
  apply retry_or_done_effect in H.
  destruct H as (_ & _ & -> & -> & _ & _). split; [reflexivity|].
  now destruct states.
Qed.

(** After the retry, a round cannot ask for another turn. *)
Lemma rounds_after_retry ip0 d states states_copy t :
  states_copy <> [] ->
  forall fuel,
    rounds' (S fuel) ip0 d states states_copy t
    = rounds' 1 ip0 d states states_copy t.
Proof.
  intros Hcopy fuel. cbn [rounds]. unfold bind.
  destruct (round' ip0 d states states_copy t) as [[[s' c']|] t1| |] eqn:E;
    try reflexivity.
  apply round_retry_needs_empty_copy in E. tauto.
Qed.

Lemma rounds_two_suffice ip0 d states t :
  forall fuel, (2 <= fuel)%nat ->
    rounds' fuel ip0 d states [] t = rounds' 2 ip0 d states [] t.
Proof.
  intros [|[|fuel]] Hfuel; try lia.
  cbn [rounds]. unfold bind at 1 3.
  destruct (round' ip0 d states [] t) as [[[s' c']|] t1| |] eqn:E;
    try reflexivity.
  apply round_retry_needs_empty_copy in E. destruct E as (_ & Hc).
  exact (rounds_after_retry ip0 d s' c' t1 Hc fuel).
Qed.

Lemma rounds_two_terminate ip0 d states t :
  terminates (rounds' 2 ip0 d states []) t.
Proof.
  cbn [rounds].
  apply terminates_bind; [apply round_terminates|].
  intros [[s' c']|] t1 E; [|exact I].
  apply round_retry_needs_empty_copy in E. destruct E as (_ & Hc).
  apply terminates_bind; [apply round_terminates|].
  intros [[s'' c'']|] t2 E; [|exact I].
  apply round_retry_needs_empty_copy in E. tauto.
Qed.

(** C7.  The retry after a flag exit (capture the registers as a state
    to avoid, restore the registers taken before the stepping, go round
    again) is taken only while [states_copy] is empty and leaves it
    non-empty; a second flag exit in the same call fails an assertion and
    aborts instead.  Hence two turns of the loop are all there can be: the
    routine never runs out of fuel with two or more, and more fuel changes
    nothing. *)
Theorem zf_retry_at_most_once (ip0 : Z) (decoded : DecodedInstruction)
    (states states_copy : list Registers) (r : Registers) (t : Task) :
  (* the first flag exit: capture, restore, go round again *)
  (ip (regs t) <> ip0 -> ip (regs t) = uadd ip0 (length decoded) ->
   modifies_flags decoded = true ->
   retry_or_done ip0 decoded states [] r t
   = Ok (Some (states ++ [regs t], states ++ [regs t])) (with_regs t r))
  /\
  (* a second one is fatal, whatever else holds *)
  (states_copy <> [] -> ip (regs t) <> ip0 ->
   exists why,
     retry_or_done ip0 decoded states states_copy r t = Abort why t /\
     (why = AssertFlagExit \/ why = AssertSingleRetry))
  /\
  (states_copy <> [] -> ip (regs t) <> ip0 ->
   ip (regs t) = uadd ip0 (length decoded) ->
   modifies_flags decoded = true ->
   retry_or_done ip0 decoded states states_copy r t
   = Abort AssertSingleRetry t)
  /\
  (* so a round goes round again only from an empty [states_copy] *)
  (forall s' c' t',
     round SIGTRAP DS_WATCHPOINT_ANY hw watchpoint_fits breakpoint_fits
       ip0 decoded states states_copy t
     = Ok (Some (s', c')) t' ->
     states_copy = [] /\ c' <> [])
  /\
  (* and two turns of the loop are all there can be *)
  (forall fuel, (2 <= fuel)%nat ->
     fast_forward_through_instruction SIGTRAP DS_WATCHPOINT_ANY junk hw
       watchpoint_fits breakpoint_fits fuel states t
     = fast_forward_through_instruction SIGTRAP DS_WATCHPOINT_ANY junk hw
         watchpoint_fits breakpoint_fits 2 states t
     /\
     verdict (fast_forward_through_instruction SIGTRAP DS_WATCHPOINT_ANY junk
                hw watchpoint_fits breakpoint_fits fuel states t) <> TimedOut).
Proof.
  split; [|split; [|split; [|split]]].
  - intros Hne Hip Hmf.
    unfold retry_or_done, task_ip, set_regs, ASSERT, bind, gets, modify, ret.
    destruct (Z.eqb_spec (ip (regs t)) ip0) as [|_]; [contradiction|].
    cbn [negb]. rewrite Hip, Z.eqb_refl, Hmf. reflexivity.
  - intros Hcopy Hne.
    unfold retry_or_done, task_ip, set_regs, ASSERT, bind, gets, modify, ret.
    destruct (Z.eqb_spec (ip (regs t)) ip0) as [|_]; [contradiction|].
    cbn [negb]. destruct (_ && _).
    + destruct states_copy; [contradiction|]. eauto.
    + eauto.
  - intros Hcopy Hne Hip Hmf.
    unfold retry_or_done, task_ip, set_regs, ASSERT, bind, gets, modify, ret.
    destruct (Z.eqb_spec (ip (regs t)) ip0) as [|_]; [contradiction|].
    cbn [negb]. rewrite Hip, Z.eqb_refl, Hmf. cbn [andb].
    destruct states_copy; [contradiction|reflexivity].
  - intros s' c' t'. apply round_retry_needs_empty_copy.
  - intros fuel Hfuel.
    assert (fast_forward_through_instruction' fuel states t
            = fast_forward_through_instruction' 2 states t) as Heq.
    { unfold fast_forward_through_instruction, bind, gets, ret.
      cbv beta.
      repeat match goal with
             | |- context [match ?c with Ok _ _ => _ | Abort _ _ => _
                                    | Timeout _ => _ end] =>
               destruct c; try reflexivity
             | |- context [if ?c then _ else _] => destruct c; try reflexivity
             | |- context [match ?c with Some _ => _ | None => _ end] =>
               destruct c; try reflexivity
             end.
      now apply rounds_two_suffice. }
    split; [exact Heq|]. rewrite Heq.
    apply terminates_verdict.
    unfold fast_forward_through_instruction.
    no_timeout. apply rounds_two_terminate.
Qed.

End EngineFacts.

(* ------------------------------------------------------------------ *)
(** ** The reference tracee never lets CX grow *)

Lemma string_iteration_cx opcode size r m it :
  RefCpu.string_iteration opcode size r m = Some it ->
  cx (RefCpu.it_regs it) = cx r.
Proof.
  unfold RefCpu.string_iteration.
  repeat match goal with
         | |- context [if ?c then _ else _] => destruct c
         | |- context [match ?c with Some _ => _ | None => _ end] =>
           destruct c
         end; intro H; inversion H; reflexivity.
Qed.

Lemma rep_step_cx d opcode repne r m it :
  RefCpu.rep_step d opcode repne r m = Some it ->
  cx (RefCpu.it_regs it) <= cx r.
Proof.
  unfold RefCpu.rep_step.
  destruct (cx r =? 0).
  { intro H. inversion H. cbn. lia. }
  destruct (RefCpu.string_iteration _ _ r m) as [it0|] eqn:E; [|discriminate].
  apply string_iteration_cx in E.
  intro H. inversion H. cbn [RefCpu.it_regs].
  destruct (_ || _); cbn; lia.
Qed.

Lemma execute_one_cx a v r m status :
  match RefCpu.execute_one a v r m status with
  | RefCpu.Running r' _ _ => cx r' <= cx r
  | RefCpu.Stopped s => cx (stop_regs s) <= cx r
  end.
Proof.
  unfold RefCpu.execute_one.
  destruct (existsb _ _); [cbn; lia|].
  destruct (read_bytes_fallible m (ip r) 15) as [|first rest]; [cbn; lia|].
  destruct (first =? 0xEB).
  { destruct (m (ip r + 1)); cbn; lia. }
  destruct (decode_x86_string_instruction _) as [d|]; [|cbn; lia].
  destruct (_ <? length d); [cbn; lia|].
  destruct (RefCpu.rep_step _ _ _ r m) as [it|] eqn:E; [|cbn; lia].
  apply rep_step_cx in E.
  destruct (_ =? 0); cbn; exact E.
Qed.

Lemma continue_cx a v :
  forall budget r m status,
    cx (stop_regs (RefCpu.continue budget a v r m status)) <= cx r.
Proof.
  induction budget as [|budget IH]; intros r m status; cbn [RefCpu.continue].
  - cbn. lia.
  - pose proof (execute_one_cx a v r m status) as H.
    destruct (RefCpu.execute_one a v r m status) as [r' m' status'|s].
    + specialize (IH r' m' status'). lia.
    + exact H.
Qed.

Lemma cpu_cx_nonincreasing budget : cx_nonincreasing (RefCpu.cpu budget).
Proof.
  intros [|] t; cbn [RefCpu.cpu].
  - apply continue_cx.
  - pose proof (execute_one_cx (arch t) (vm t) (regs t) (mem t)
                  (debug_status t)) as H.
    destruct (RefCpu.execute_one _ _ _ _ _); cbn; exact H.
Qed.

(* ------------------------------------------------------------------ *)
(** ** Worked scenarios on the reference tracee *)

(** C5.  Scenario S1 on the reference tracee ([rep movsb] at 0x1000,
    CX = 1000, SI = 0x8000, DI = 0x9000, DF = 0, nothing installed, no
    target states): the decoder yields size 1, length 2, no flags; after the
    trial step the bounder asks for 998 iterations; the batched phase puts
    its watchpoint at 0x9366 = DI + 998 - 128; 128 iterations are left to
    the tail; the routine returns at IP = 0x1000 with CX = 1. *)
Theorem scenario_S1 :
  let r := RefCpu.run 5000 [] RefCpu.s1_task in
  decode_x86_string_instruction (read_instruction [] RefCpu.s1_task 0x1000)
  = Some (mkDecoded 1 2 false) /\
  result_value
    (bound_iterations 0x1000 (mkDecoded 1 2 false) []
       (next_stop (RefCpu.cpu 5000) RESUME_SINGLESTEP RefCpu.s1_task))
  = Some (Some (999, 998)) /\
  verdict r = Returned /\
  debug_log (result_task r)
  = [LogIterationsRequired 998; LogWatchpointAt 0x9366;
     LogIterationsToGo 128; LogDone] /\
  di (regs RefCpu.s1_task) + 998 - 128 = 0x9366 /\
  ip (regs (result_task r)) = 0x1000 /\
  cx (regs (result_task r)) = 1.
Proof. vm_compute. repeat split; reflexivity. Qed.

(** C1, counterexample.  With a short jump at the entry IP the routine
    returns after the trial step at the jump's target: not the entry IP, and
    not the entry IP plus the length of a decoded string instruction, for
    there is none. *)
Lemma return_ip_after_jump :
  let r := RefCpu.run 5000 [] RefCpu.jump_task in
  let entry_ip := ip (regs RefCpu.jump_task) in
  verdict r = Returned /\
  ip (regs (result_task r)) <> entry_ip /\
  forall d,
    decode_x86_string_instruction
      (read_instruction [] RefCpu.jump_task entry_ip)
    = Some d ->
    ip (regs (result_task r)) <> entry_ip + length d.
Proof.
  cbn zeta. split; [vm_compute; reflexivity|].
  split; [vm_compute; discriminate|].
  intros d H. vm_compute in H. discriminate.
Qed.

(** C2, counterexample.  When the tracee faults in the middle of the
    batched phase, the call ends on the assertion about the stop signal, and
    the tables are left armed: the internal breakpoint and the temporary
    watchpoint are installed, the user's watchpoint is still parked. *)
Lemma tables_left_behind_on_fault :
  let r := RefCpu.run 5000 [] RefCpu.faulting_task in
  verdict r = Aborted AssertPendingSigtrap /\
  pending_sig (result_task r) = RefCpu.SIGSEGV /\
  vm RefCpu.faulting_task = mkVm [] [RefCpu.user_watch] [] /\
  vm (result_task r)
  = mkVm [(0x1002, TRAP_BKPT_INTERNAL)]
         [mkWatch 0x9366 1 WATCH_READWRITE]
         [[RefCpu.user_watch]].
Proof. vm_compute. repeat split; reflexivity. Qed.


(** C4, counterexample.  [rep stosb] with SI holding all ones and a
    watchpoint of the user installed, at the bounder after the trial step:
    moving forward, the watchpoint lies below SI and the two ranges are
    apart, so the claim leaves the bound at 998; the bounder does not yield
    a bound at all, it aborts. *)
Lemma watchpoint_behind_last_byte_aborts :
  let stosb := mkDecoded 1 2 false in
  let R := uintptr_modulus - 1 in
  let w := RefCpu.user_watch in
  let t := next_stop (RefCpu.cpu 5000) RESUME_SINGLESTEP RefCpu.stray_si_task in
  si (regs t) = R /\
  cx (regs t) - 1 = 998 /\
  In w (watchpoints (vm t)) /\
  df_flag (regs t) = false /\
  addr w < R /\
  ~ ranges_intersect R (operand_size stosb) (addr w) (num_bytes w) /\
  bound_iterations_for_watchpoint R stosb w 998 t <> Ok 998 t /\
  bound_iterations_for_watchpoint R stosb w 998 t
  = Abort AssertRangeNoWrap t.
Proof.
  intros stosb R w t.
  assert (bound_iterations_for_watchpoint R stosb w 998 t
          = Abort AssertRangeNoWrap t) as E.
  { unfold bound_iterations_for_watchpoint, bind, gets.
    rewrite mem_intersect_wraps; [reflexivity|].
    left. vm_compute. discriminate. }
  split; [vm_compute; reflexivity|].
  split; [vm_compute; reflexivity|].
  split; [left; reflexivity|].
  split; [vm_compute; reflexivity|].
  split; [vm_compute; reflexivity|].
  split.
  { intros (x & Hx1 & Hx2). subst R.
    unfold uintptr_modulus, uintptr_bits in Hx1.
    change (2 ^ 64) with 18446744073709551616 in Hx1.
    cbn in Hx1, Hx2. lia. }
  rewrite E. split; [discriminate|reflexivity].
Qed.

(** C8.  The bounder on a range that would wrap.  The one byte at the last
    address, as a register range, wraps to address 0; the bounder does not
    treat it as unreachable and leave the bound alone, it fails the
    assertion of [mem_intersect].  [rep stosb], which does not use SI, with
    SI holding all ones and a watchpoint of the user installed aborts the
    whole routine that way. *)
Theorem bounder_aborts_on_wrapping_range :
  let stosb := mkDecoded 1 2 false in
  let all_ones := uintptr_modulus - 1 in
  uadd all_ones (operand_size stosb) = 0 /\
  bound_iterations_for_watchpoint all_ones stosb RefCpu.user_watch 998
    RefCpu.s1_task
  = Abort AssertRangeNoWrap RefCpu.s1_task /\
  si (regs RefCpu.stray_si_task) = all_ones /\
  verdict (RefCpu.run 5000 [] RefCpu.stray_si_task)
  = Aborted AssertRangeNoWrap.
Proof. cbn zeta. repeat split; vm_compute; reflexivity. Qed.

(* ------------------------------------------------------------------ *)
(** ** The general theorems at concrete tracees *)

(** A watchpoint behind DI leaves the bound at 998; a register range at
    the last address aborts. *)
Lemma wrapping_ranges_abort_witness :
  let movsb := mkDecoded 1 2 false in
  bound_iterations_for_watchpoint 0x9000 movsb (mkWatch 0x8F00 4 WATCH_WRITE)
    998 RefCpu.s1_task = Ok 998 RefCpu.s1_task
  /\
  bound_iterations_for_watchpoint (uintptr_modulus - 1) movsb
    (mkWatch 0x8F00 4 WATCH_WRITE) 998 RefCpu.s1_task
  = Abort AssertRangeNoWrap RefCpu.s1_task.
Proof.
  cbn zeta.
  pose proof (wrapping_ranges_abort RefCpu.s1_task 0x9000
                (mkDecoded 1 2 false) (mkWatch 0x8F00 4 WATCH_WRITE) 998)
    as [Hok _].
  pose proof (wrapping_ranges_abort RefCpu.s1_task (uintptr_modulus - 1)
                (mkDecoded 1 2 false) (mkWatch 0x8F00 4 WATCH_WRITE) 998)
    as [_ Hwrap].
  cbn zeta in Hok, Hwrap. split.
  - destruct Hok as (v & E & Hfwd & _).
    + unfold range_ok; cbn; lia.
    + unfold range_ok; cbn; lia.
    + rewrite E. f_equal. apply Hfwd.
      * intros (x & Hx1 & Hx2). cbn in Hx1, Hx2. lia.
      * reflexivity.
      * cbn. lia.
  - apply Hwrap. left. vm_compute. discriminate.
Defined.

(** Three target states: one past the loop with CX = 10, which tightens
    the bound to 189, one at the entry IP with CX = 0 and one elsewhere,
    which are skipped. *)
Lemma state_bound_matches_spec_witness :
  let after_loop := mkRegs 0x1002 10 0 0 0 0 in
  let entered_with_zero := mkRegs 0x1000 0 0 0 0 0 in
  let elsewhere := mkRegs 0x2000 5 0 0 0 0 in
  bound_iterations 0x1000 (mkDecoded 1 2 true)
    [after_loop; entered_with_zero; elsewhere] RefCpu.s4_task
  = Ok (Some (200, 189)) RefCpu.s4_task.
Proof.
  cbn zeta.
  pose proof (state_bound_matches_spec 0x1000 (mkDecoded 1 2 true)
                [mkRegs 0x1002 10 0 0 0 0; mkRegs 0x1000 0 0 0 0 0;
                 mkRegs 0x2000 5 0 0 0 0] RefCpu.s4_task) as H.
  cbn zeta in H. destruct H as (_ & H & _).
  - cbn. unfold uintptr_modulus. cbn. lia.
  - unfold in_uintptr, uintptr_modulus. cbn. lia.
  - repeat constructor; cbn; lia.
  - rewrite H. reflexivity.
Defined.

(** A watchpoint 0x100 bytes ahead of DI, moving forward by bytes; and
    with a second one 0x40 bytes ahead of SI, which the loop meets first. *)
Lemma watchpoint_bound_rule_witness :
  bound_iterations_for_watchpoint 0x9000 (mkDecoded 1 2 false)
    (mkWatch 0x9100 4 WATCH_WRITE) 998 RefCpu.s1_task
  = Ok 256 RefCpu.s1_task /\
  bound_iterations_for_watchpoints (mkDecoded 1 2 false)
    [mkWatch 0x9100 4 WATCH_WRITE; mkWatch 0x8040 1 WATCH_READWRITE] 998
    RefCpu.s1_task
  = Ok 64 RefCpu.s1_task.
Proof.
  pose proof (watchpoint_bound_rule RefCpu.s1_task 0x9000
                (mkDecoded 1 2 false) (mkWatch 0x9100 4 WATCH_WRITE)
                [mkWatch 0x8040 1 WATCH_READWRITE] 998)
    as H.
  cbn zeta in H. destruct H as ((v & E & _ & Hfwd & _) & _ & Hloop).
  - unfold range_ok; cbn; lia.
  - unfold range_ok; cbn; lia.
  - split.
    + rewrite E. f_equal. rewrite Hfwd.
      * reflexivity.
      * intros (x & Hx1 & Hx2). cbn in Hx1, Hx2. lia.
      * reflexivity.
      * cbn. lia.
    + rewrite Hloop.
      * reflexivity.
      * unfold range_ok; cbn; lia.
      * unfold range_ok; cbn; lia.
      * repeat constructor; cbn; lia.
Defined.

(** A computation that returned ended in its result task. *)
Lemma returned_result (r : Res unit) :
  verdict r = Returned -> r = Ok tt (result_task r).
Proof. destruct r as [[] t| |]; simpl; intro H; congruence. Qed.

(** Establish by evaluation that the run of the goal returned. *)
Ltac returned_by_computation V :=
  match goal with
  | |- verdict ?r = Returned /\ _ =>
    assert (verdict r = Returned) as V by (vm_compute; reflexivity)
  end.

(** The scan with its retry returns with the user's watchpoint in place;
    the faulting copy aborts with the tables armed. *)
Lemma tables_restored_on_return_witness :
  let cpu := RefCpu.cpu 5000 in
  let t := next_stop cpu RESUME_SINGLESTEP RefCpu.faulting_task in
  (verdict (RefCpu.run 5000 [] RefCpu.scan_task) = Returned /\
   vm (result_task (RefCpu.run 5000 [] RefCpu.scan_task))
   = vm RefCpu.scan_task)
  /\
  exists t',
    batched_phase RefCpu.SIGTRAP RefCpu.DS_WATCHPOINT_ANY cpu
      RefCpu.watchpoint_fits RefCpu.breakpoint_fits
      0x1000 (mkDecoded 1 2 false) 999 1 997 998 t
    = Abort AssertPendingSigtrap t' /\
    vm t' = armed_tables 0x1002 0x9366 (vm RefCpu.faulting_task).
Proof.
  cbn zeta. split.
  - unfold RefCpu.run. returned_by_computation V.
    split; [exact V|].
    exact (proj1 (tables_restored_on_return RefCpu.SIGTRAP
                    RefCpu.DS_WATCHPOINT_ANY [] (RefCpu.cpu 5000)
                    RefCpu.watchpoint_fits RefCpu.breakpoint_fits 2 []
                    RefCpu.scan_task 0 (mkDecoded 1 2 false) 0 0 0 0)
             _ (returned_result _ V)).
  - apply (proj2 (tables_restored_on_return RefCpu.SIGTRAP
                    RefCpu.DS_WATCHPOINT_ANY [] (RefCpu.cpu 5000)
                    RefCpu.watchpoint_fits RefCpu.breakpoint_fits 0 []
                    (next_stop (RefCpu.cpu 5000) RESUME_SINGLESTEP
                       RefCpu.faulting_task)
                    0x1000 (mkDecoded 1 2 false) 999 1 997 998)).
    + reflexivity.
    + reflexivity.
    + vm_compute. discriminate.
Defined.

(** The scan returns at its entry IP with a smaller CX. *)
Lemma return_ip_contract_witness :
  let r := RefCpu.run 5000 [] RefCpu.scan_task in
  verdict r = Returned /\
  ip (regs (result_task r)) = ip (regs RefCpu.scan_task) /\
  cx (regs (result_task r)) <= cx (regs RefCpu.scan_task).
Proof.
  cbn zeta. unfold RefCpu.run. returned_by_computation V.
  split; [exact V|].
  match goal with
  | |- ?a = ?b /\ _ => assert (a = b) as Hip by (vm_compute; reflexivity)
  end.
  split; [exact Hip|].
  destruct (return_ip_contract RefCpu.SIGTRAP RefCpu.DS_WATCHPOINT_ANY []
              (RefCpu.cpu 5000) RefCpu.watchpoint_fits
              RefCpu.breakpoint_fits 2 [] RefCpu.scan_task
              _ (returned_result _ V))
    as [(_ & C)|(_ & N)].
  - exact (C (cpu_cx_nonincreasing 5000)).
  - contradiction.
Defined.


(** The flag exit of the scan: retried from an empty [states_copy], fatal
    from a non-empty one; the run does not time out. *)
Lemma zf_retry_at_most_once_witness :
  let r := mkRegs 0x1000 999 0 0x9001 0x41 0 in
  let exit := mkRegs 0x1002 699 0 0x912D 0x41 0x40 in
  let t := with_regs RefCpu.scan_task exit in
  retry_or_done 0x1000 (mkDecoded 1 2 true) [] [] r t
  = Ok (Some ([exit], [exit])) (with_regs t r) /\
  retry_or_done 0x1000 (mkDecoded 1 2 true) [] [exit] r t
  = Abort AssertSingleRetry t /\
  verdict (RefCpu.run 5000 [] RefCpu.scan_task) <> TimedOut.
Proof.
  cbn zeta.
  pose proof (zf_retry_at_most_once RefCpu.SIGTRAP RefCpu.DS_WATCHPOINT_ANY
                [] (RefCpu.cpu 5000) RefCpu.watchpoint_fits
                RefCpu.breakpoint_fits 0x1000 (mkDecoded 1 2 true) []
                [mkRegs 0x1002 699 0 0x912D 0x41 0x40]
                (mkRegs 0x1000 999 0 0x9001 0x41 0)
                (with_regs RefCpu.scan_task
                   (mkRegs 0x1002 699 0 0x912D 0x41 0x40)))
    as (Hfirst & _ & Hsecond & _ & _).
  pose proof (zf_retry_at_most_once RefCpu.SIGTRAP RefCpu.DS_WATCHPOINT_ANY
                [] (RefCpu.cpu 5000) RefCpu.watchpoint_fits
                RefCpu.breakpoint_fits 0x1000 (mkDecoded 1 2 true) [] []
                (mkRegs 0x1000 999 0 0x9001 0x41 0) RefCpu.scan_task)
    as (_ & _ & _ & _ & Hfuel).
  split; [|split].
  - apply Hfirst; cbn; [discriminate|reflexivity|reflexivity].
  - apply Hsecond; cbn; [discriminate|discriminate|reflexivity|reflexivity].
  - unfold RefCpu.run. exact (proj2 (Hfuel 2%nat (le_n 2))).
Defined.

(* ================================================================== *)
(** * Further properties of the decoder *)

Lemma take_while_length_le {A} (p : A -> bool) (l : list A) :
  (List.length (take_while p l) <= List.length l)%nat.
Proof.
  induction l as [|x l IH]; cbn; [lia|]. destruct (p x); cbn; lia.
Qed.

Lemma opcode_not_prefix (b : Z) :
  In b string_opcodes -> is_prefix_byte b = false.
Proof.
  intro H. cbn in H.
  repeat (destruct H as [<-|H]; [reflexivity|]). contradiction.
Qed.

(** How the loop of the decoder ends: either on a string opcode, inside
    the fetched bytes, with [done] set and the flag bit telling compare and
    scan from the rest; or at the end of the fetched bytes, all of them
    prefixes, with [done] clear. *)
Lemma decode_scan_ending (code : InstructionBuf) :
  forall n k st e,
    decode_scan n code (Z.of_nat k) st = Some e ->
    let run :=
      take_while is_prefix_byte (firstn n (skipn k (code_buf code))) in
    let opcode := buf_at code (scan_i e) in
    ((List.length run < n)%nat /\ scan_done e = true /\
     In opcode string_opcodes /\
     scan_modifies_flags e = byte_in opcode flag_opcodes)
    \/
    (List.length run = n /\ scan_done e = false /\
     scan_modifies_flags e = false).
Proof.
  induction n as [|n IH]; intros k st e H.
  - cbn in H. injection H as <-. right. cbn. auto.
  - cbn [decode_scan] in H. unfold buf_at in H. rewrite Nat2Z.id in H.
    destruct (Nat.lt_ge_cases k (List.length (code_buf code))) as [Hk|Hk].
    2:{ rewrite (nth_overflow_zero _ _ Hk) in H. cbn in H. discriminate. }
    cbn zeta. rewrite (skipn_nth_cons _ _ Hk).
    set (b := nth k (code_buf code) 0) in *.
    cbn [firstn take_while].
    replace (Z.of_nat k + 1) with (Z.of_nat (S k)) in H by lia.
    assert (forall st',
      decode_scan n code (Z.of_nat (S k)) st' = Some e ->
      is_prefix_byte b = true ->
      (let run := b :: take_while is_prefix_byte
                        (firstn n (skipn (S k) (code_buf code))) in
       ((List.length run < S n)%nat /\ scan_done e = true /\
        In (buf_at code (scan_i e)) string_opcodes /\
        scan_modifies_flags e = byte_in (buf_at code (scan_i e)) flag_opcodes)
       \/
       (List.length run = S n /\ scan_done e = false /\
        scan_modifies_flags e = false))) as Hprefix.
    { intros st' H' _. apply IH in H'. cbn zeta in H' |- *.
      cbn [List.length]. destruct H' as [(L & R)|(L & R)]; [left|right];
        (split; [lia|exact R]). }
    unfold is_prefix_byte, byte_in in *. cbn [existsb] in *.
    destruct (Z.eqb_spec b 0x66) as [Hb|Hb66].
    { rewrite Hb in *. apply (Hprefix _ H). reflexivity. }
    destruct (Z.eqb_spec b 0x48) as [Hb|Hb48].
    { destruct (arch_eqb (ib_arch code) x86_64); [|discriminate].
      rewrite Hb in *. apply (Hprefix _ H). reflexivity. }
    destruct (Z.eqb_spec b 0xF2) as [Hb|HbF2].
    { cbn [orb] in H. rewrite Hb in *. apply (Hprefix _ H). reflexivity. }
    destruct (Z.eqb_spec b 0xF3) as [Hb|HbF3].
    { cbn [orb] in H. rewrite Hb in *. apply (Hprefix _ H). reflexivity. }
    cbn [orb] in H |- *. clear Hprefix.
    assert (buf_at code (Z.of_nat k) = b) as Hat
      by (unfold buf_at; now rewrite Nat2Z.id).
    left. cbn [List.length].
    destruct (_ || _) eqn:Hplain in H.
    { injection H as <-. cbn [scan_i scan_done scan_modifies_flags].
      rewrite Hat. split; [lia|]. split; [reflexivity|].
      repeat (apply orb_true_iff in Hplain;
              destruct Hplain as [Hplain|Hplain];
              [apply Z.eqb_eq in Hplain; rewrite Hplain;
               split; [cbn; tauto|reflexivity]|]).
      discriminate. }
    destruct (_ || _) eqn:Hflag in H; [|discriminate].
    injection H as <-. cbn [scan_i scan_done scan_modifies_flags].
    rewrite Hat. split; [lia|]. split; [reflexivity|].
    repeat (apply orb_true_iff in Hflag;
            destruct Hflag as [Hflag|Hflag];
            [apply Z.eqb_eq in Hflag; rewrite Hflag;
             split; [cbn; tauto|reflexivity]|]).
    discriminate.
Qed.

(** X1.  When the decoder succeeds, a REP prefix (0xF2 or 0xF3) is among
    the prefix bytes; and if the byte after the prefixes was fetched, it is
    one of the ten string opcodes and [modifies_flags] tells exactly
    whether it is a compare or a scan. *)
Theorem decode_success_conditions
    (code : InstructionBuf) (d : DecodedInstruction) :
  decode_x86_string_instruction code = Some d ->
  let p := prefix_bytes code in
  let opcode := buf_at code (Z.of_nat (List.length p)) in
  byte_in 0xF2 p || byte_in 0xF3 p = true /\
  (Z.of_nat (List.length p) < code_buf_len code ->
   In opcode string_opcodes /\
   modifies_flags d = byte_in opcode flag_opcodes).
Proof.
  unfold decode_x86_string_instruction. intro H.
  destruct (decode_scan _ code 0 no_prefix) as [e|] eqn:Hscan; [|discriminate].
  destruct (found_REP_prefix (scan_flags e)) eqn:Hrep; [|discriminate].
  cbn [negb] in H. injection H as <-.
  pose proof (decode_scan_prefix_run code _ 0%nat _ _ Hscan) as Hrun.
  pose proof (decode_scan_ending code _ 0%nat _ _ Hscan) as Hend.
  cbn zeta in Hrun, Hend. cbn [skipn Nat.add no_prefix found_REP_prefix orb]
    in Hrun, Hend.
  destruct Hrun as (Hi & _ & _ & Hr & _).
  unfold prefix_bytes, fetched_bytes. cbn zeta. cbn [modifies_flags].
  split; [congruence|].
  intro Hfetched. rewrite <- Hi.
  destruct Hend as [(_ & _ & Hop & Hmf)|(Hall & _)]; [now split|].
  rewrite Hall in Hfetched. lia.
Qed.

Lemma decode_success_conditions_witness :
  let code := mkInstructionBuf x86 [0xF2; 0xAE; 0x90] 3 in
  byte_in 0xF2 (prefix_bytes code) || byte_in 0xF3 (prefix_bytes code) = true
  /\ In (buf_at code 1) string_opcodes.
Proof.
  cbn zeta.
  pose proof (decode_success_conditions
                (mkInstructionBuf x86 [0xF2; 0xAE; 0x90] 3)
                (mkDecoded 1 2 true) eq_refl) as H.
  cbn zeta in H. destruct H as (Hrep & Hop).
  split; [exact Hrep|].
  destruct Hop as [Hin _]; [vm_compute; reflexivity|exact Hin].
Defined.

Lemma read_bytes_fallible_length (m : Z -> option Z) :
  forall n a, (List.length (read_bytes_fallible m a n) <= n)%nat.
Proof.
  induction n as [|n IH]; intro a; cbn; [lia|].
  destruct (m a); cbn; [|lia]. specialize (IH (uadd a 1)). lia.
Qed.

Lemma existsb_some_nonempty (f : Z -> bool) (l : list Z) :
  existsb f l = true -> (1 <= List.length l)%nat.
Proof. destruct l; cbn; [discriminate|lia]. Qed.

(** The ranges of the fields of a decoded instruction. *)
Lemma decoded_ranges (c : InstructionBuf) (d : DecodedInstruction) :
  decode_x86_string_instruction c = Some d ->
  In (operand_size d) [1; 2; 4; 8] /\
  1 <= code_buf_len c /\
  2 <= length d <= code_buf_len c + 1.
Proof.
  intro H. unfold decode_x86_string_instruction in H.
  destruct (decode_scan _ c 0 no_prefix) as [e|] eqn:Hscan; [|discriminate].
  destruct (found_REP_prefix (scan_flags e)) eqn:Hrep; [|discriminate].
  cbn [negb] in H. injection H as <-.
  pose proof (decode_scan_prefix_run c _ 0%nat _ _ Hscan) as Hrun.
  cbn zeta in Hrun.
  cbn [skipn Nat.add no_prefix found_REP_prefix orb] in Hrun.
  destruct Hrun as (Hi & _ & _ & Hr & _).
  set (run := take_while is_prefix_byte
                (firstn (Z.to_nat (code_buf_len c)) (code_buf c))) in *.
  assert (1 <= List.length run)%nat as Hone.
  { rewrite Hrep in Hr. symmetry in Hr. apply orb_true_iff in Hr.
    destruct Hr as [Hr|Hr]; exact (existsb_some_nonempty _ _ Hr). }
  assert (List.length run <= Z.to_nat (code_buf_len c))%nat as Hle.
  { unfold run. etransitivity; [apply take_while_length_le|].
    apply firstn_le_length. }
  cbn [operand_size length]. split; [|lia].
  cbn. destruct (negb _); [|tauto].
  destruct (found_REXW_prefix _); [tauto|].
  destruct (found_operand_prefix _); tauto.
Qed.

(** X2.  The fields of a decoded instruction are in range: the operand
    size is 1, 2, 4 or 8, and the length counts at least one prefix and the
    opcode and at most all fetched bytes plus one; in particular nothing is
    decoded from an empty fetch, and the length never exceeds 33 on a
    buffer filled by [read_instruction]. *)
Theorem decoded_fields_in_range
    (code : InstructionBuf) (d : DecodedInstruction) (junk : list Z)
    (t : Task) (a : Z) :
  (decode_x86_string_instruction code = Some d ->
   In (operand_size d) [1; 2; 4; 8] /\
   1 <= code_buf_len code /\
   2 <= length d <= code_buf_len code + 1)
  /\
  (decode_x86_string_instruction (read_instruction junk t a) = Some d ->
   2 <= length d <= 33).
Proof.
  split; [apply decoded_ranges|].
  intro H. apply decoded_ranges in H. destruct H as (_ & _ & Hlen).
  unfold read_instruction in Hlen. cbn [code_buf_len] in Hlen.
  pose proof (read_bytes_fallible_length (mem t) 32 a). lia.
Qed.

Lemma decoded_fields_in_range_witness :
  let stosq := mkInstructionBuf x86_64 [0xF3; 0x48; 0xAB] 3 in
  let d := mkDecoded 8 3 false in
  decode_x86_string_instruction stosq = Some d /\
  In (operand_size d) [1; 2; 4; 8] /\
  2 <= length d <= code_buf_len stosq + 1 /\
  2 <= length (mkDecoded 1 2 false) <= 33.
Proof.
  cbn zeta.
  pose proof (decoded_fields_in_range
                (mkInstructionBuf x86_64 [0xF3; 0x48; 0xAB] 3)
                (mkDecoded 8 3 false) []
                RefCpu.s1_task 0x1000) as [H _].
  pose proof (decoded_fields_in_range
                (mkInstructionBuf x86_64 [0xF3; 0x48; 0xAB] 3)
                (mkDecoded 1 2 false) []
                RefCpu.s1_task 0x1000) as [_ H'].
  specialize (H eq_refl). specialize (H' eq_refl).
  destruct H as (Hs & _ & Hl).
  split; [reflexivity|]. split; [exact Hs|]. split; [exact Hl|exact H'].
Defined.

Lemma buf_at_middle (a : SupportedArch) (front back : list Z) (b len : Z) :
  buf_at (mkInstructionBuf a (front ++ b :: back) len)
    (Z.of_nat (List.length front)) = b.
Proof.
  unfold buf_at. cbn [code_buf]. rewrite Nat2Z.id. apply nth_middle.
Qed.

(** The loop of the decoder over recognised prefixes followed by a string
    opcode. *)
Lemma decode_scan_accepts (a : SupportedArch) (opcode len : Z)
    (rest : list Z) :
  In opcode string_opcodes ->
  forall prefixes front n st,
    (List.length prefixes < n)%nat ->
    Forall (fun b => is_prefix_byte b = true) prefixes ->
    (byte_in 0x48 prefixes = true -> a = x86_64) ->
    decode_scan n
      (mkInstructionBuf a (front ++ prefixes ++ opcode :: rest) len)
      (Z.of_nat (List.length front)) st
    = Some (mkScanEnd
        (Z.of_nat (List.length front + List.length prefixes))
        (mkPrefixFlags
           (found_operand_prefix st || byte_in 0x66 prefixes)
           (found_REP_prefix st
            || (byte_in 0xF2 prefixes || byte_in 0xF3 prefixes))
           (found_REXW_prefix st || byte_in 0x48 prefixes))
        (byte_in opcode flag_opcodes) true).
Proof.
  intro Hop.
  induction prefixes as [|p ps IH]; intros front n st Hn Hall Harch.
  - destruct n as [|n]; [cbn in Hn; lia|].
    cbn [decode_scan app]. rewrite buf_at_middle.
    cbn [List.length byte_in existsb]. rewrite Nat.add_0_r, !orb_false_r.
    destruct st as [o r x]. cbn [found_operand_prefix found_REP_prefix
      found_REXW_prefix].
    cbn in Hop.
    repeat (destruct Hop as [<-|Hop]; [reflexivity|]). contradiction.
  - destruct n as [|n]; [cbn in Hn; lia|].
    cbn [List.length] in Hn.
    inversion Hall as [|? ? Hp Hps]; subst.
    cbn [decode_scan]. cbn [app]. rewrite buf_at_middle.
    replace (Z.of_nat (List.length front) + 1)
      with (Z.of_nat (List.length (front ++ [p])))
      by (rewrite length_app; cbn; lia).
    replace (front ++ p :: ps ++ opcode :: rest)
      with ((front ++ [p]) ++ ps ++ opcode :: rest)
      by (now rewrite <- app_assoc).
    assert (List.length (front ++ [p]) + List.length ps
            = List.length front + List.length (p :: ps))%nat as Hlen
      by (rewrite length_app; cbn; lia).
    unfold is_prefix_byte, byte_in in Hp. cbn [existsb] in Hp.
    unfold byte_in in *. cbn [existsb] in Harch |- *.
    destruct (Z.eqb_spec p 0x66) as [->|H66].
    { rewrite IH; [|lia|assumption|exact Harch].
      rewrite Hlen. cbn [found_operand_prefix found_REP_prefix
        found_REXW_prefix Z.eqb Pos.eqb orb].
      now rewrite ?orb_true_r. }
    destruct (Z.eqb_spec p 0x48) as [->|H48].
    { assert (a = x86_64) as Ha by (apply Harch; reflexivity).
      subst a. cbn [ib_arch arch_eqb].
      rewrite IH; [|lia|assumption|reflexivity].
      rewrite Hlen. cbn [found_operand_prefix found_REP_prefix
        found_REXW_prefix Z.eqb Pos.eqb orb].
      now rewrite ?orb_true_r. }
    destruct (Z.eqb_spec p 0xF2) as [->|HF2].
    { cbn [orb]. rewrite IH; [|lia|assumption|exact Harch].
      rewrite Hlen. cbn [found_operand_prefix found_REP_prefix
        found_REXW_prefix Z.eqb Pos.eqb orb].
      now rewrite ?orb_true_r. }
    destruct (Z.eqb_spec p 0xF3) as [->|HF3].
    { cbn [orb]. rewrite IH; [|lia|assumption|exact Harch].
      rewrite Hlen. cbn [found_operand_prefix found_REP_prefix
        found_REXW_prefix Z.eqb Pos.eqb orb].
      now rewrite ?orb_true_r. }
    cbn in Hp. discriminate.
Qed.

(** X3.  Recognised prefixes in any order, a REP prefix among them and
    REX.W only on x86_64, followed by one of the ten string opcodes inside
    the fetched bytes: the decoder accepts, whatever follows the opcode,
    and yields the operand size of the rule, the number of prefixes plus
    one, and the flag bit of compare and scan. *)
Theorem decode_accepts_prefixed_opcode (a : SupportedArch)
    (prefixes : list Z) (opcode : Z) (rest : list Z) (len : Z) :
  Forall (fun b => is_prefix_byte b = true) prefixes ->
  byte_in 0xF2 prefixes || byte_in 0xF3 prefixes = true ->
  (byte_in 0x48 prefixes = true -> a = x86_64) ->
  In opcode string_opcodes ->
  Z.of_nat (List.length prefixes) < len ->
  decode_x86_string_instruction
    (mkInstructionBuf a (prefixes ++ opcode :: rest) len)
  = Some (mkDecoded (size_rule opcode prefixes)
            (Z.of_nat (List.length prefixes) + 1)
            (byte_in opcode flag_opcodes)).
Proof.
  intros Hall Hrep Harch Hop Hlen.
  unfold decode_x86_string_instruction. cbn [code_buf_len].
  rewrite (decode_scan_accepts a opcode len rest Hop prefixes [] _ no_prefix);
    [|lia|assumption|assumption].
  cbn [scan_flags scan_i scan_modifies_flags found_REP_prefix
    found_REXW_prefix found_operand_prefix no_prefix orb List.length
    Nat.add app].
  rewrite Hrep. cbn [negb].
  rewrite (buf_at_middle a prefixes rest opcode len).
  unfold size_rule. destruct (Z.land opcode 1 =? 0); reflexivity.
Qed.

Lemma decode_accepts_prefixed_opcode_witness :
  decode_x86_string_instruction
    (mkInstructionBuf x86_64 [0x48; 0xF2; 0xAF; 0xC3; 0x90] 5)
  = Some (mkDecoded 8 3 true).
Proof.
  apply (decode_accepts_prefixed_opcode x86_64 [0x48; 0xF2] 0xAF
           [0xC3; 0x90] 5).
  - repeat constructor.
  - reflexivity.
  - reflexivity.
  - cbn. tauto.
  - cbn. lia.
Defined.

Lemma take_while_stops (p : Z -> bool) (l : list Z) :
  (exists b, In b l /\ p b = false) ->
  (List.length (take_while p l) < List.length l)%nat.
Proof.
  induction l as [|x l IH]; intros (b & Hin & Hb); [contradiction|].
  cbn. destruct (p x) eqn:Hx; cbn; [|lia].
  destruct Hin as [->|Hin]; [congruence|].
  assert (List.length (take_while p l) < List.length l)%nat by eauto. lia.
Qed.

(** The loop of the decoder reads fetched bytes only. *)
Lemma decode_scan_reads_fetched (a : SupportedArch) (fetched x y : list Z)
    (len : Z) :
  forall n k st,
    (k + n <= List.length fetched)%nat ->
    decode_scan n (mkInstructionBuf a (fetched ++ x) len) (Z.of_nat k) st
    = decode_scan n (mkInstructionBuf a (fetched ++ y) len) (Z.of_nat k) st.
Proof.
  induction n as [|n IH]; intros k st Hk; [reflexivity|].
  cbn [decode_scan]. unfold buf_at. cbn [code_buf ib_arch].
  rewrite Nat2Z.id, !app_nth1 by lia.
  replace (Z.of_nat k + 1) with (Z.of_nat (S k)) by lia.
  rewrite !(IH (S k)) by lia. reflexivity.
Qed.

(** X4.  What the instruction buffer held before the read does not
    influence the decoder as soon as one fetched byte is not a prefix. *)
Theorem decode_ignores_stale_buffer (junk junk' : list Z) (t : Task)
    (a : Z) :
  (exists b, In b (read_bytes_fallible (mem t) a 32) /\
             is_prefix_byte b = false) ->
  decode_x86_string_instruction (read_instruction junk t a)
  = decode_x86_string_instruction (read_instruction junk' t a).
Proof.
  intro Hstop. unfold read_instruction.
  set (fetched := read_bytes_fallible (mem t) a 32) in *.
  set (x := skipn (List.length fetched) (firstn 32 junk)).
  set (y := skipn (List.length fetched) (firstn 32 junk')).
  unfold decode_x86_string_instruction. cbn [code_buf_len].
  rewrite Nat2Z.id.
  rewrite (decode_scan_reads_fetched (arch t) fetched x y _ _ 0%nat no_prefix)
    by (cbn; lia).
  cbn [Z.of_nat].
  destruct (decode_scan _ _ 0 no_prefix) as [e|] eqn:Hscan; [|reflexivity].
  destruct (negb _); [reflexivity|].
  pose proof (decode_scan_prefix_run _ _ 0%nat _ _ Hscan) as (Hi & _).
  cbn [skipn code_buf Nat.add] in Hi.
  rewrite firstn_app, Nat.sub_diag, firstn_all in Hi.
  cbn [firstn] in Hi. rewrite app_nil_r in Hi.
  pose proof (take_while_stops is_prefix_byte fetched Hstop) as Hlt.
  unfold buf_at. cbn [code_buf]. rewrite Hi, Nat2Z.id.
  rewrite !app_nth1 by lia. reflexivity.
Qed.

Lemma decode_ignores_stale_buffer_witness :
  decode_x86_string_instruction
    (read_instruction [0xFF; 0xFF; 0xFF] RefCpu.s1_task 0x1000)
  = decode_x86_string_instruction
      (read_instruction [] RefCpu.s1_task 0x1000).
Proof.
  apply decode_ignores_stale_buffer.
  exists 0xA4. split; [vm_compute; tauto|reflexivity].
Defined.

(* ================================================================== *)
(** * Further properties of the bounder *)

(** X5.  [mem_intersect] does not care about the order of its two ranges,
    and on ranges that lie within the address space it answers exactly
    whether they share an address. *)
Theorem mem_intersect_decides_overlap (a1 s1 a2 s2 : Z) (t : Task) :
  mem_intersect a1 s1 a2 s2 t = mem_intersect a2 s2 a1 s1 t /\
  (range_ok a1 s1 -> range_ok a2 s2 ->
   exists b,
     mem_intersect a1 s1 a2 s2 t = Ok b t /\
     (b = true <-> ranges_intersect a1 s1 a2 s2)).
Proof.
  split.
  - unfold mem_intersect, bind, ASSERT, ret.
    rewrite (Z.max_comm a2 a1), (Z.min_comm (uadd a2 s2) (uadd a1 s1)).
    destruct (a1 <? uadd a1 s1), (a2 <? uadd a2 s2); reflexivity.
  - intros H1 H2. eexists. split; [now apply mem_intersect_ok|].
    apply overlap_test_spec; [apply H1|apply H2].
Qed.

Lemma mem_intersect_decides_overlap_witness :
  mem_intersect 0x9000 4 0x9003 8 RefCpu.s1_task = Ok true RefCpu.s1_task /\
  mem_intersect 0x9003 8 0x9000 4 RefCpu.s1_task = Ok true RefCpu.s1_task.
Proof.
  pose proof (mem_intersect_decides_overlap 0x9000 4 0x9003 8 RefCpu.s1_task)
    as (Hsym & Hok).
  destruct Hok as (b & E & Hb); [unfold range_ok; cbn; lia ..|].
  assert (b = true) as ->.
  { apply Hb. exists 0x9003. lia. }
  split; [exact E|]. rewrite <- Hsym. exact E.
Defined.

(** The quotient and what is left of it, for a positive divisor. *)
Lemma quotient_brackets (x s : Z) : 0 < s ->
  s * (x / s) <= x < s * (x / s) + s.
Proof.
  intro Hs. pose proof (Z.div_mod x s ltac:(lia)).
  pose proof (Z.mod_pos_bound x s Hs). lia.
Qed.

(** X6.  The bound against a watchpoint is safe: counting from 0, none of
    the iterations below the bound has its operand, [size] bytes at the
    register moved by that many operand sizes in the direction of DF, on
    the watchpoint. *)
Theorem watchpoint_bound_is_safe (t t' : Task) (R : Z)
    (d : DecodedInstruction) (w : WatchConfig) (iterations v : Z) :
  range_ok R (operand_size d) ->
  range_ok (addr w) (num_bytes w) ->
  bound_iterations_for_watchpoint R d w iterations t = Ok v t' ->
  forall k, 0 <= k < v ->
    ~ ranges_intersect
        (R + direction_of (regs t) * (k * operand_size d)) (operand_size d)
        (addr w) (num_bytes w).
Proof.
  intros HR Hw H k Hk (x & Hx1 & Hx2).
  rewrite bound_for_watchpoint_cases in H by assumption.
  injection H as Hv _.
  destruct HR as (HR0 & Hs & HRend), Hw as (Hw0 & Hn & Hwend).
  unfold direction_of in Hx1.
  destruct (Z.ltb_spec (Z.max R (addr w))
              (Z.min (R + operand_size d) (addr w + num_bytes w)))
    as [Hhit|Hmiss]; [lia|].
  destruct (df_flag (regs t)).
  - destruct (Z.ltb_spec R (addr w)) as [Hlt|Hge]; [nia|].
    pose proof (quotient_brackets (R - (addr w + num_bytes w))
                  (operand_size d) Hs).
    nia.
  - destruct (Z.ltb_spec (addr w) R) as [Hlt|Hge]; [nia|].
    pose proof (quotient_brackets (addr w - R) (operand_size d) Hs).
    nia.
Qed.

Lemma watchpoint_bound_is_safe_witness :
  bound_iterations_for_watchpoint 0x9000 (mkDecoded 4 2 false)
    (mkWatch 0x9100 4 WATCH_WRITE) 998 RefCpu.s1_task
  = Ok 64 RefCpu.s1_task /\
  ~ ranges_intersect (0x9000 + 1 * (63 * 4)) 4 0x9100 4.
Proof.
  split; [reflexivity|].
  apply (watchpoint_bound_is_safe RefCpu.s1_task RefCpu.s1_task 0x9000
           (mkDecoded 4 2 false) (mkWatch 0x9100 4 WATCH_WRITE) 998 64).
  - unfold range_ok; cbn; lia.
  - unfold range_ok; cbn; lia.
  - reflexivity.
  - lia.
Defined.

(** X7.  The bound against a watchpoint is exact: whenever it lowers the
    bound, the iteration whose number is the new bound is one whose operand
    is on the watchpoint. *)
Theorem watchpoint_bound_is_exact (t t' : Task) (R : Z)
    (d : DecodedInstruction) (w : WatchConfig) (iterations v : Z) :
  range_ok R (operand_size d) ->
  range_ok (addr w) (num_bytes w) ->
  bound_iterations_for_watchpoint R d w iterations t = Ok v t' ->
  v < iterations ->
  ranges_intersect
    (R + direction_of (regs t) * (v * operand_size d)) (operand_size d)
    (addr w) (num_bytes w).
Proof.
  intros HR Hw H Hlow.
  rewrite bound_for_watchpoint_cases in H by assumption.
  injection H as Hv _.
  destruct HR as (HR0 & Hs & HRend), Hw as (Hw0 & Hn & Hwend).
  unfold direction_of.
  destruct (Z.ltb_spec (Z.max R (addr w))
              (Z.min (R + operand_size d) (addr w + num_bytes w)))
    as [Hhit|Hmiss].
  { subst v. exists (Z.max R (addr w)).
    destruct (df_flag (regs t)); lia. }
  destruct (df_flag (regs t)).
  - destruct (Z.ltb_spec R (addr w)) as [Hlt|Hge]; [lia|].
    pose proof (quotient_brackets (R - (addr w + num_bytes w))
                  (operand_size d) Hs).
    exists (addr w + num_bytes w - 1). nia.
  - destruct (Z.ltb_spec (addr w) R) as [Hlt|Hge]; [lia|].
    pose proof (quotient_brackets (addr w - R) (operand_size d) Hs).
    exists (addr w). nia.
Qed.

Lemma watchpoint_bound_is_exact_witness :
  let backward := mkRegs 0x1000 999 0x8000 0x9000 0 0x400 in
  bound_iterations_for_watchpoint 0x9000 (mkDecoded 4 2 false)
    (mkWatch 0x8F00 16 WATCH_WRITE) 998 (with_regs RefCpu.s1_task backward)
  = Ok 61 (with_regs RefCpu.s1_task backward) /\
  ranges_intersect (0x9000 + -1 * (61 * 4)) 4 0x8F00 16.
Proof.
  cbn zeta. split; [reflexivity|].
  apply (watchpoint_bound_is_exact
           (with_regs RefCpu.s1_task (mkRegs 0x1000 999 0x8000 0x9000 0 0x400))
           (with_regs RefCpu.s1_task (mkRegs 0x1000 999 0x8000 0x9000 0 0x400))
           0x9000 (mkDecoded 4 2 false) (mkWatch 0x8F00 16 WATCH_WRITE)
           998 61).
  - unfold range_ok; cbn; lia.
  - unfold range_ok; cbn; lia.
  - reflexivity.
  - lia.
Defined.

Lemma bound_for_state_le ip0 d cur_cx it s :
  bound_iterations_for_state ip0 d cur_cx it s <= it.
Proof. unfold bound_iterations_for_state. split_tests; lia. Qed.

Lemma bound_for_states_le ip0 d cur_cx states :
  forall it, bound_iterations_for_states ip0 d cur_cx states it <= it.
Proof.
  unfold bound_iterations_for_states.
  induction states as [|s rest IH]; intro it; cbn [fold_left]; [lia|].
  specialize (IH (bound_iterations_for_state ip0 d cur_cx it s)).
  pose proof (bound_for_state_le ip0 d cur_cx it s). lia.
Qed.

Lemma bound_for_watchpoint_le R d w it t v t' :
  bound_iterations_for_watchpoint R d w it t = Ok v t' -> 0 <= it -> v <= it.
Proof.
  unfold bound_iterations_for_watchpoint, mem_intersect, bind, gets, ASSERT,
    ret.
  split_tests; intros E Hit; inversion E; subst; lia.
Qed.

Lemma bound_for_watchpoints_le d ws :
  forall it t v t',
    bound_iterations_for_watchpoints d ws it t = Ok v t' ->
    0 <= it -> v <= it.
Proof.
  induction ws as [|w rest IH]; intros it t v t' H Hit.
  - inversion H. lia.
  - cbn [bound_iterations_for_watchpoints] in H.
    apply bind_ok in H. destruct H as (r1 & t1 & E1 & H).
    inversion E1; subst r1 t1; clear E1.
    apply bind_ok in H. destruct H as (i1 & t1 & E1 & H).
    pose proof (bound_for_watchpoint_nonneg _ _ _ _ _ _ _ E1 Hit).
    pose proof (bound_for_watchpoint_le _ _ _ _ _ _ _ E1 Hit).
    apply bind_ok in H. destruct H as (r2 & t2 & E2 & H).
    inversion E2; subst r2 t2; clear E2.
    apply bind_ok in H. destruct H as (i2 & t2 & E2 & H).
    pose proof (bound_for_watchpoint_nonneg _ _ _ _ _ _ _ E2 ltac:(lia)).
    pose proof (bound_for_watchpoint_le _ _ _ _ _ _ _ E2 ltac:(lia)).
    apply IH in H; lia.
Qed.

(** The parts of a round's plan. *)
Lemma bound_iterations_plan ip0 d states t c it t' :
  bound_iterations ip0 d states t = Ok (Some (c, it)) t' ->
  t' = t /\ c = cx (regs t) /\ c <> 0 /\ 0 < it /\
  it <= bound_iterations_for_states ip0 d c states (usub c 1).
Proof.
  intro H. pose proof (bound_iterations_pure _ _ _ _ _ _ H) as (-> & Hpos).
  specialize (Hpos _ _ eq_refl).
  unfold bound_iterations in H.
  apply bind_ok in H. destruct H as (c0 & t1 & E & H).
  inversion E; subst c0 t1; clear E.
  destruct (Z.eqb_spec (cx (regs t)) 0) as [|Hnz]; [discriminate|].
  apply bind_ok in H. destruct H as (ws & t1 & E & H).
  inversion E; subst ws t1; clear E.
  apply bind_ok in H. destruct H as (it0 & t1 & E & H).
  apply bound_for_watchpoints_le in E;
    [|apply bound_for_states_nonneg, wrap_nonneg].
  destruct (it0 =? 0); inversion H; subst. auto.
Qed.

(** X8.  A round never plans the last iteration of the loop: with a CX
    that fits the machine word, the planned count is positive and at most
    CX - 1, and planning leaves the tracee untouched. *)
Theorem plan_leaves_last_iteration (ip0 : Z) (d : DecodedInstruction)
    (states : list Registers) (t t' : Task) (c it : Z) :
  in_uintptr (cx (regs t)) ->
  bound_iterations ip0 d states t = Ok (Some (c, it)) t' ->
  t' = t /\ c = cx (regs t) /\ 0 < it <= c - 1.
Proof.
  intros Hfit H. apply bound_iterations_plan in H.
  destruct H as (-> & -> & Hnz & Hpos & Hle).
  repeat split; try assumption.
  pose proof (bound_for_states_le ip0 d (cx (regs t)) states
                (usub (cx (regs t)) 1)) as Hst.
  unfold usub in Hst, Hle.
  rewrite wrap_small in Hst, Hle by (unfold in_uintptr in *; lia).
  lia.
Qed.

Lemma plan_leaves_last_iteration_witness :
  bound_iterations 0x1000 (mkDecoded 1 2 true) [RefCpu.s4_target]
    RefCpu.s4_task = Ok (Some (200, 149)) RefCpu.s4_task /\
  0 < 149 <= 200 - 1.
Proof.
  split; [reflexivity|].
  apply (plan_leaves_last_iteration 0x1000 (mkDecoded 1 2 true)
           [RefCpu.s4_target] RefCpu.s4_task RefCpu.s4_task 200 149).
  - unfold in_uintptr, uintptr_modulus. cbn. lia.
  - reflexivity.
Defined.

(** The states loop ends at or below what a state the loop can reach in
    this pass asks for. *)
Lemma bound_for_states_below_target ip0 d cur_cx s :
  0 <= cx s < cur_cx -> cur_cx < uintptr_modulus ->
  (ip s = ip0 /\ cx s <> 0) \/ (ip s <> ip0 /\ ip s = uadd ip0 (length d)) ->
  forall states it,
    In s states ->
    bound_iterations_for_states ip0 d cur_cx states it
    <= cur_cx - cx s - 1.
Proof.
  intros Hcx Hfit Hat. unfold bound_iterations_for_states.
  induction states as [|s0 rest IH]; intros it Hin; [contradiction|].
  cbn [fold_left]. destruct Hin as [->|Hin]; [|now apply IH].
  etransitivity; [apply (bound_for_states_le ip0 d cur_cx rest)|].
  unfold bound_iterations_for_state, usub.
  rewrite (wrap_small (cur_cx - cx s)) by (unfold in_uintptr; lia).
  rewrite (wrap_small (cur_cx - cx s - 1)) by (unfold in_uintptr; lia).
  destruct Hat as [(Hip & Hnz)|(Hne & Hip)].
  - rewrite Hip, Z.eqb_refl.
    destruct (Z.eqb_spec (cx s) 0); [contradiction|].
    destruct (Z.leb_spec cur_cx (cx s)); lia.
  - destruct (Z.eqb_spec (ip s) ip0); [contradiction|].
    rewrite Hip, Z.eqb_refl.
    destruct (Z.leb_spec cur_cx (cx s)); lia.
Qed.

(** X9.  The plan stops short of every target state the loop can reach in
    this pass: for a state at the entry IP with a non-zero CX below the
    current one, or a state right after the instruction with a CX below the
    current one, CX after the planned iterations is still above the
    state's CX. *)
Theorem plan_stops_short_of_target_states (ip0 : Z) (d : DecodedInstruction)
    (states : list Registers) (t t' : Task) (c it : Z) (s : Registers) :
  in_uintptr (cx (regs t)) ->
  bound_iterations ip0 d states t = Ok (Some (c, it)) t' ->
  In s states ->
  0 <= cx s < c ->
  (ip s = ip0 /\ cx s <> 0) \/ (ip s <> ip0 /\ ip s = uadd ip0 (length d)) ->
  cx s < c - it.
Proof.
  intros Hfit H Hin Hcx Hat. apply bound_iterations_plan in H.
  destruct H as (-> & -> & _ & _ & Hle).
  pose proof (bound_for_states_below_target ip0 d (cx (regs t)) s Hcx
                (proj2 Hfit) Hat states (usub (cx (regs t)) 1) Hin).
  lia.
Qed.

Lemma plan_stops_short_of_target_states_witness :
  cx RefCpu.s4_target < 200 - 149.
Proof.
  apply (plan_stops_short_of_target_states 0x1000 (mkDecoded 1 2 true)
           [RefCpu.s4_target] RefCpu.s4_task RefCpu.s4_task 200 149).
  - unfold in_uintptr, uintptr_modulus. cbn. lia.
  - reflexivity.
  - now left.
  - cbn. lia.
  - left. split; [reflexivity|cbn; lia].
Defined.

(** The watchpoint loop on ranges that lie within the address space: it
    does not abort, it only lowers the bound, and a watchpoint under an
    operand takes the bound to zero. *)
Lemma bound_for_watchpoints_ok d t ws :
  range_ok (si (regs t)) (operand_size d) ->
  range_ok (di (regs t)) (operand_size d) ->
  Forall (fun w => range_ok (addr w) (num_bytes w)) ws ->
  forall it, 0 <= it ->
    exists v,
      bound_iterations_for_watchpoints d ws it t = Ok v t /\
      0 <= v <= it /\
      ((exists w, In w ws /\
          (ranges_intersect (si (regs t)) (operand_size d)
             (addr w) (num_bytes w) \/
           ranges_intersect (di (regs t)) (operand_size d)
             (addr w) (num_bytes w))) -> v = 0).
Proof.
  intros Hsi Hdi Hall. induction Hall as [|w rest Hw _ IH]; intros it Hit.
  - exists it. split; [reflexivity|]. split; [lia|].
    intros (w & [] & _).
  - cbn [bound_iterations_for_watchpoints]. unfold bind at 1, gets at 1.
    unfold bind at 1.
    pose proof (bound_for_watchpoint_cases t (si (regs t)) d w it Hsi Hw)
      as Esi.
    pose proof (bound_for_watchpoint_nonneg _ _ _ _ _ _ _ Esi Hit) as Nsi.
    pose proof (bound_for_watchpoint_le _ _ _ _ _ _ _ Esi Hit) as Lsi.
    rewrite Esi. set (i1 := if Z.max (si (regs t)) (addr w) <? _ then _ else _)
      in *.
    unfold bind at 1, gets at 1. unfold bind at 1.
    pose proof (bound_for_watchpoint_cases t (di (regs t)) d w i1 Hdi Hw)
      as Edi.
    pose proof (bound_for_watchpoint_nonneg _ _ _ _ _ _ _ Edi Nsi) as Ndi.
    pose proof (bound_for_watchpoint_le _ _ _ _ _ _ _ Edi Nsi) as Ldi.
    rewrite Edi. set (i2 := if Z.max (di (regs t)) (addr w) <? _ then _ else _)
      in *.
    destruct (IH i2 Ndi) as (v & E & Hv & Hzero).
    exists v. split; [exact E|]. split; [lia|].
    intros (w' & [<-|Hin] & Hhit); [|apply Hzero; eauto].
    assert (i2 = 0) as Hi2; [|lia].
    destruct Hsi as (_ & Hs & _), Hw as (_ & Hn & _).
    destruct Hhit as [Hhit|Hhit];
      apply (overlap_test_spec _ _ _ _ Hs Hn) in Hhit.
    + assert (i1 = 0) by (unfold i1; now rewrite Hhit). lia.
    + unfold i2. now rewrite Hhit.
Qed.

(** X10.  A watchpoint that is already under the operand at SI or at DI
    ends the round before anything runs: provided the ranges lie within the
    address space, the bounder reports that there is nothing to
    fast-forward, whatever CX and the target states are. *)
Theorem watchpoint_under_operand_stops_round (ip0 : Z)
    (d : DecodedInstruction) (states : list Registers) (t : Task)
    (w : WatchConfig) :
  range_ok (si (regs t)) (operand_size d) ->
  range_ok (di (regs t)) (operand_size d) ->
  Forall (fun w => range_ok (addr w) (num_bytes w)) (watchpoints (vm t)) ->
  In w (watchpoints (vm t)) ->
  ranges_intersect (si (regs t)) (operand_size d) (addr w) (num_bytes w) \/
  ranges_intersect (di (regs t)) (operand_size d) (addr w) (num_bytes w) ->
  bound_iterations ip0 d states t = Ok None t.
Proof.
  intros Hsi Hdi Hall Hin Hhit.
  unfold bound_iterations, bind, gets.
  destruct (cx (regs t) =? 0); [reflexivity|].
  destruct (bound_for_watchpoints_ok d t (watchpoints (vm t)) Hsi Hdi Hall
              (bound_iterations_for_states ip0 d (cx (regs t)) states
                 (usub (cx (regs t)) 1)))
    as (v & E & _ & Hzero).
  { apply bound_for_states_nonneg, wrap_nonneg. }
  rewrite E, Hzero by eauto. reflexivity.
Qed.

Lemma watchpoint_under_operand_stops_round_witness :
  let t := with_vm RefCpu.s1_task
             (mkVm [] [RefCpu.user_watch; mkWatch 0x7FFE 4 WATCH_WRITE] []) in
  bound_iterations 0x1000 (mkDecoded 1 2 false) [] t = Ok None t.
Proof.
  cbn zeta.
  apply (watchpoint_under_operand_stops_round 0x1000 (mkDecoded 1 2 false) []
           _ (mkWatch 0x7FFE 4 WATCH_WRITE)).
  - unfold range_ok; cbn; lia.
  - unfold range_ok; cbn; lia.
  - repeat constructor; cbn; lia.
  - cbn. tauto.
  - left. exists 0x8000. cbn. lia.
Defined.

(* ================================================================== *)
(** * Further properties of the routine *)

Lemma keeps_tables_bind {A B} (m : M A) (k : A -> M B) (t : Task) :
  keeps_tables m t ->
  (forall a t1, m t = Ok a t1 -> keeps_tables (k a) t1) ->
  keeps_tables (bind m k) t.
Proof.
  unfold keeps_tables, bind. intros Hm Hk.
  destruct (m t) as [a t1| |]; auto.
  specialize (Hk a t1 eq_refl). cbn in Hm. rewrite Hm in Hk. exact Hk.
Qed.

Section EngineInvariants.

Variable SIGTRAP : Z.
Variable DS_WATCHPOINT_ANY : Z.
Variable junk : list Z.
Variable hw : ResumeRequest -> Task -> Stop.
Variable watchpoint_fits : Z -> Z -> WatchType -> Task -> bool.
Variable breakpoint_fits : Z -> TrapType -> Task -> bool.

(** The routine and its parts on the tracee of this section. *)
Local Abbreviation next_stop' := (next_stop hw).
Local Abbreviation tail_phase' := (tail_phase SIGTRAP DS_WATCHPOINT_ANY hw).
Local Abbreviation batched_phase' :=
  (batched_phase SIGTRAP DS_WATCHPOINT_ANY hw watchpoint_fits breakpoint_fits).
Local Abbreviation execute_iterations' :=
  (execute_iterations SIGTRAP DS_WATCHPOINT_ANY hw
    watchpoint_fits breakpoint_fits).
Local Abbreviation round' :=
  (round SIGTRAP DS_WATCHPOINT_ANY hw watchpoint_fits breakpoint_fits).
Local Abbreviation rounds' :=
  (rounds SIGTRAP DS_WATCHPOINT_ANY hw watchpoint_fits breakpoint_fits).
Local Abbreviation fast_forward_through_instruction' :=
  (fast_forward_through_instruction SIGTRAP DS_WATCHPOINT_ANY junk hw
     watchpoint_fits breakpoint_fits).

(** Unfold the batched phase down to the primitives. *)
Ltac open_batched_phase :=
  unfold batched_phase, assert_sigtrap, save_watchpoints,
    remove_all_watchpoints, add_watchpoint, add_breakpoint, remove_breakpoint,
    restore_watchpoints, resume_execution, consume_debug_status,
    next_stop, task_ip, set_regs, LOG, ASSERT, bind, gets, modify,
    ret, with_vm, with_regs;
  cbn -[drop_breakpoint]; rewrite ?Z.eqb_refl; cbn [andb].

(** Split on whether the address space takes what it is asked for. *)
Ltac asked_to_fit fits Hfits :=
  match goal with
  | |- context [fits ?a ?b ?c ?x] => destruct (fits a b c x) eqn:Hfits
  | |- context [fits ?a ?b ?x] => destruct (fits a b x) eqn:Hfits
  end;
  cbn -[drop_breakpoint]; rewrite ?Z.eqb_refl; cbn [andb].

(** X11.  The soft aborts of the trial step.  If the trial step ends in a
    stop that is not a trap, the routine aborts there.  If it ends in a
    trap and the IP moved, or a breakpoint sits at the entry IP, or a
    watchpoint fired, or the registers match a target state, or the
    architecture is not x86 or x86_64, or the bytes at the entry IP do not
    decode, the routine returns with the tracee exactly as the trial step
    left it: it has resumed the tracee once. *)
Theorem soft_abort_after_trial_step (fuel : nat) (states : list Registers)
    (t : Task) :
  let t1 := next_stop hw RESUME_SINGLESTEP t in
  let ip0 := ip (regs t) in
  (stop_sig (hw RESUME_SINGLESTEP t) <> SIGTRAP ->
   fast_forward_through_instruction SIGTRAP DS_WATCHPOINT_ANY junk hw
     watchpoint_fits breakpoint_fits fuel states t
   = Abort AssertPendingSigtrap t1)
  /\
  (stop_sig (hw RESUME_SINGLESTEP t) = SIGTRAP ->
   ip (regs t1) <> ip0 \/
   get_breakpoint_type_at_addr (vm t) ip0 <> TRAP_NONE \/
   Z.land (debug_status t1) DS_WATCHPOINT_ANY <> 0 \/
   (exists s, In s states /\ matches s (regs t1) = true) \/
   (arch t <> x86 /\ arch t <> x86_64) \/
   decode_x86_string_instruction (read_instruction junk t1 ip0) = None ->
   fast_forward_through_instruction SIGTRAP DS_WATCHPOINT_ANY junk hw
     watchpoint_fits breakpoint_fits fuel states t = Ok tt t1).
Proof.
  cbn zeta.
  assert (pending_sig (next_stop hw RESUME_SINGLESTEP t)
          = stop_sig (hw RESUME_SINGLESTEP t)) as Hps by reflexivity.
  assert (vm (next_stop hw RESUME_SINGLESTEP t) = vm t) as Hvm
    by reflexivity.
  assert (arch (next_stop hw RESUME_SINGLESTEP t) = arch t) as Har
    by reflexivity.
  set (t1 := next_stop hw RESUME_SINGLESTEP t) in *.
  assert (fast_forward_through_instruction SIGTRAP DS_WATCHPOINT_ANY junk hw
            watchpoint_fits breakpoint_fits fuel states t
          = if pending_sig t1 =? SIGTRAP then
              if negb (ip (regs t1) =? ip (regs t)) then Ok tt t1
              else if negb (trap_eqb
                        (get_breakpoint_type_at_addr (vm t1) (ip (regs t)))
                        TRAP_NONE) then Ok tt t1
              else if negb (Z.land (debug_status t1) DS_WATCHPOINT_ANY =? 0)
                then Ok tt t1
              else if existsb (fun s => matches s (regs t1)) states
                then Ok tt t1
              else if negb (arch_eqb (arch t1) x86)
                      && negb (arch_eqb (arch t1) x86_64) then Ok tt t1
              else match decode_x86_string_instruction
                           (read_instruction junk t1 (ip (regs t))) with
                   | None => Ok tt t1
                   | Some d =>
                     rounds SIGTRAP DS_WATCHPOINT_ANY hw watchpoint_fits
                       breakpoint_fits fuel (ip (regs t)) d states [] t1
                   end
            else Abort AssertPendingSigtrap t1) as Hshape.
  { unfold fast_forward_through_instruction, resume_execution,
      assert_sigtrap, task_ip, ASSERT, bind, gets, modify, ret.
    fold t1. destruct (pending_sig t1 =? SIGTRAP); [|reflexivity].
    repeat match goal with
           | |- context [if ?c then _ else _] =>
             destruct c; try reflexivity
           end.
    now destruct (decode_x86_string_instruction _). }
  clearbody t1. rewrite Hshape, Hps, Hvm, Har. clear Hshape. split.
  - intro Hsig.
    destruct (Z.eqb_spec (stop_sig (hw RESUME_SINGLESTEP t)) SIGTRAP);
      [contradiction|reflexivity].
  - intros Hsig Hwhy. rewrite Hsig, Z.eqb_refl.
    destruct (Z.eqb_spec (ip (regs t1)) (ip (regs t))) as [Hip|Hip];
      [|reflexivity].
    cbn [negb].
    destruct (get_breakpoint_type_at_addr (vm t) (ip (regs t))) eqn:Hbk;
      [|reflexivity..].
    cbn [trap_eqb negb].
    destruct (Z.eqb_spec (Z.land (debug_status t1) DS_WATCHPOINT_ANY) 0)
      as [Hds|Hds]; [|reflexivity].
    cbn [negb].
    destruct (existsb _ states) eqn:Hmatch; [reflexivity|].
    destruct (arch t) eqn:Harch; cbn [arch_eqb negb andb];
      [| |reflexivity];
      (destruct (decode_x86_string_instruction _) eqn:Hdec; [|reflexivity];
       exfalso;
       destruct Hwhy as [H|[H|[H|[(s & Hin & Hs)|[(H1 & H2)|H]]]]];
       [ contradiction | contradiction | contradiction
       | assert (existsb (fun s' => matches s' (regs t1)) states = true)
           by (apply existsb_exists; eauto); congruence
       | congruence
       | congruence ]).
Qed.


(* ------------------------------------------------------------------ *)
(** ** The retry *)

(** X13.  A round goes round again only for an instruction that sets
    flags, after the tracee has left the instruction for the address right
    after it; it then adds exactly one state to avoid, the registers at
    that point, and starts the next round from the registers the round
    began with and from unchanged tables. *)
Theorem retry_unwinds_flag_instruction (ip0 : Z) (d : DecodedInstruction)
    (states states_copy states' states_copy' : list Registers)
    (t t' : Task) :
  ip (regs t) = ip0 ->
  round SIGTRAP DS_WATCHPOINT_ANY hw watchpoint_fits breakpoint_fits
    ip0 d states states_copy t
  = Ok (Some (states', states_copy')) t' ->
  modifies_flags d = true /\
  (exists exit_state,
     states' = states ++ [exit_state] /\
     ip exit_state = uadd ip0 (length d)) /\
  regs t' = regs t /\ vm t' = vm t.
Proof.
  intros Hip H.
  pose proof (round_effect _ _ _ _ _ _ _ _ _ _ _ _ Hip H)
    as (_ & _ & _ & Hr & Hvm & _).
  unfold round in H.
  apply bind_ok in H. destruct H as (plan & t1 & E & H).
  destruct plan as [[cur_cx it]|]; [|discriminate].
  apply bind_ok in H. destruct H as (r & t2 & _ & H).
  unfold retry_or_done, task_ip, set_regs, LOG, ASSERT, bind, gets, modify,
    ret, with_regs in H.
  destruct (ip (regs t2) =? ip0); cbn [negb] in H; [discriminate|].
  destruct (Z.eqb_spec (ip (regs t2)) (uadd ip0 (length d))) as [Hexit|];
    [|discriminate].
  destruct (modifies_flags d); [|discriminate]. cbn [andb] in H.
  destruct states_copy; [|discriminate].
  inversion H; subst. cbn [app]. repeat split; try assumption.
  exists (regs t2). now split.
Qed.

(* ------------------------------------------------------------------ *)
(** ** The tables at every exit *)

(** Walk down the binds and tests of a goal [keeps_tables m t]. *)
Ltac tables_kept :=
  repeat first
    [ progress cbv beta
    | match goal with
      | |- keeps_tables (bind _ _) _ =>
        apply keeps_tables_bind; [|intros ? ? _]
      | |- keeps_tables (if ?c then _ else _) _ => destruct c
      | |- keeps_tables (match ?c with Some _ => _ | None => _ end) _ =>
        destruct c
      | |- keeps_tables (ret _) _ => reflexivity
      | |- keeps_tables (gets _) _ => reflexivity
      | |- keeps_tables (LOG _) _ => reflexivity
      | |- keeps_tables (resume_execution _ _) _ => reflexivity
      | |- keeps_tables consume_debug_status _ => reflexivity
      | |- keeps_tables task_ip _ => reflexivity
      | |- keeps_tables (set_regs _) _ => reflexivity
      | |- keeps_tables (ASSERT ?c _) _ =>
        unfold keeps_tables, ASSERT; destruct c; cbn; auto
      | |- keeps_tables (assert_sigtrap _) _ =>
        unfold keeps_tables, assert_sigtrap, bind, gets, ASSERT;
        destruct (_ =? _); cbn; auto
      end ].

Lemma tail_phase_keeps_tables ip0 :
  forall n it t, keeps_tables (tail_phase' n ip0 it) t.
Proof.
  induction n as [|n IH]; intros it t; cbn [tail_phase].
  - reflexivity.
  - tables_kept. apply IH.
Qed.

Lemma bound_for_watchpoints_keeps_tables d ws :
  forall it t, keeps_tables (bound_iterations_for_watchpoints d ws it) t.
Proof.
  induction ws as [|w rest IH]; intros it t;
    cbn [bound_iterations_for_watchpoints].
  - reflexivity.
  - tables_kept; try apply IH;
      unfold keeps_tables, bound_iterations_for_watchpoint,
        mem_intersect, bind, gets, ASSERT, ret; split_tests; cbn; auto.
Qed.

(** The batched phase: parked, watching, armed, and back. *)
Lemma batched_phase_keeps_tables ip0 d cur_cx direction watch_offset it t :
  keeps_tables (batched_phase' ip0 d cur_cx direction watch_offset it) t.
Proof.
  unfold keeps_tables. open_batched_phase.
  asked_to_fit watchpoint_fits Hwatch.
  2:{ unfold parked_tables. reflexivity. }
  asked_to_fit breakpoint_fits Hfits.
  2:{ eexists. unfold watching_tables. reflexivity. }
  match goal with
  | |- context [hw RESUME_CONT ?x] => generalize (hw RESUME_CONT x)
  end.
  intro s.
  split_tests; cbn -[drop_breakpoint];
    rewrite ?drop_added_breakpoint, ?Z.eqb_refl; cbn [andb];
    first [ now destruct (vm t)
          | eexists; eexists; unfold armed_tables; reflexivity
          | right; eexists; eexists; unfold armed_tables; reflexivity ].
Qed.

Lemma round_keeps_tables ip0 d states states_copy t :
  keeps_tables (round' ip0 d states states_copy) t.
Proof.
  unfold round.
  apply keeps_tables_bind.
  { unfold bound_iterations. tables_kept.
    apply bound_for_watchpoints_keeps_tables. }
  intros [[cur_cx it]|] t1 _; [|reflexivity].
  apply keeps_tables_bind.
  { unfold execute_iterations. tables_kept.
    - apply batched_phase_keeps_tables.
    - apply tail_phase_keeps_tables. }
  intros r t2 _. unfold retry_or_done. tables_kept.
Qed.

Lemma rounds_keep_tables ip0 d :
  forall fuel states states_copy t,
    keeps_tables (rounds' fuel ip0 d states states_copy) t.
Proof.
  induction fuel as [|fuel IH]; intros states states_copy t;
    cbn [rounds].
  - reflexivity.
  - apply keeps_tables_bind; [apply round_keeps_tables|].
    intros [[states' states_copy']|] t1 _; [apply IH|reflexivity].
Qed.

(** X14.  The tables at every exit.  However a call ends, the tables are
    those that the way it ended allows: on a return, on running out of
    fuel, and on every failed assertion outside the batched phase they are
    the ones found at entry; when the temporary watchpoint is refused they
    are the ones found with the watchpoints parked on the save stack; when
    the internal breakpoint is refused the temporary watchpoint is
    installed as well; when a stop is not a trap they are the ones found
    (trial step, tail loop) or the armed ones (batched phase); when a stop
    of the batched phase is explained by neither watchpoint nor breakpoint
    they are the armed ones.  Nothing else is ever installed or removed.
    And a refused temporary watchpoint or internal breakpoint does end the
    batched phase on its assertion, before the tracee is resumed, with the
    watchpoints parked, and with the temporary watchpoint left behind in
    the second case. *)
Theorem tables_at_every_exit (fuel : nat) (states : list Registers)
    (t : Task) (ip0 : Z) (d : DecodedInstruction)
    (cur_cx direction watch_offset it : Z) :
  (let r :=
     fast_forward_through_instruction SIGTRAP DS_WATCHPOINT_ANY junk hw
       watchpoint_fits breakpoint_fits fuel states t in
   tables_at_exit (vm t) (verdict r) (vm (result_task r)))
  /\
  (let watch_di :=
     uadd (di (regs t)) (umul direction (usub watch_offset BYTES_COALESCED)) in
   watchpoint_fits watch_di 1 WATCH_READWRITE (parked watch_di t) = false ->
   batched_phase SIGTRAP DS_WATCHPOINT_ANY hw watchpoint_fits
     breakpoint_fits ip0 d cur_cx direction watch_offset it t
   = Abort AssertWatchpointAdded (parked watch_di t))
  /\
  (let watch_di :=
     uadd (di (regs t)) (umul direction (usub watch_offset BYTES_COALESCED)) in
   watchpoint_fits watch_di 1 WATCH_READWRITE (parked watch_di t) = true ->
   breakpoint_fits (uadd ip0 (length d)) TRAP_BKPT_INTERNAL
     (watching watch_di t) = false ->
   batched_phase SIGTRAP DS_WATCHPOINT_ANY hw watchpoint_fits
     breakpoint_fits ip0 d cur_cx direction watch_offset it t
   = Abort AssertBreakpointAdded (watching watch_di t)).
Proof.
  split; [|split].
  - cbn zeta.
    change (keeps_tables (fast_forward_through_instruction' fuel states) t).
    unfold fast_forward_through_instruction. tables_kept.
    apply rounds_keep_tables.
  - apply batched_phase_refused_watchpoint.
  - apply batched_phase_refused_breakpoint.
Qed.


(* ------------------------------------------------------------------ *)
(** ** The tail loop *)

(** X15.  The tail loop, entered with its count and a matching bound on
    its turns, never counts below zero or above where it started, and it
    is left only when the count is used up or the tracee is no longer at
    the instruction. *)
Theorem tail_phase_exit (ip0 : Z) (n : nat) (it : Z) (t t' : Task) (v : Z) :
  0 <= it -> (Z.to_nat it <= n)%nat ->
  tail_phase SIGTRAP DS_WATCHPOINT_ANY hw n ip0 it t = Ok v t' ->
  0 <= v <= it /\ (v = 0 \/ ip (regs t') <> ip0).
Proof.
  revert it t. induction n as [|n IH]; intros it t Hit Hn H.
  - inversion H; subst. lia.
  - cbn [tail_phase] in H.
    apply bind_ok in H. destruct H as (cur & t0 & E & H).
    inversion E; subst cur t0; clear E.
    destruct (Z.ltb_spec 0 it) as [Hpos|Hzero]; cbn [andb] in H.
    2:{ inversion H; subst. lia. }
    destruct (Z.eqb_spec (ip (regs t)) ip0) as [Hip|Hip].
    2:{ inversion H; subst. split; [lia|now right]. }
    apply bind_ok in H. destruct H as ([] & t1 & _ & H).
    apply bind_ok in H. destruct H as ([] & t2 & _ & H).
    apply bind_ok in H. destruct H as (status & t3 & _ & H).
    apply bind_ok in H. destruct H as ([] & t4 & _ & H).
    apply IH in H; [|lia|lia]. lia.
Qed.

End EngineInvariants.

Lemma soft_abort_after_trial_step_witness :
  RefCpu.run 5000 [] RefCpu.jump_task
  = Ok tt (next_stop (RefCpu.cpu 5000) RESUME_SINGLESTEP RefCpu.jump_task).
Proof.
  unfold RefCpu.run.
  apply (proj2 (soft_abort_after_trial_step RefCpu.SIGTRAP
                  RefCpu.DS_WATCHPOINT_ANY [] (RefCpu.cpu 5000)
                  RefCpu.watchpoint_fits RefCpu.breakpoint_fits
                  2 [] RefCpu.jump_task)).
  - reflexivity.
  - left. vm_compute. discriminate.
Defined.

(* ------------------------------------------------------------------ *)
(** ** The further properties at concrete tracees *)

(** The copy of scenario S1 on address spaces that refuse: when the
    temporary watchpoint is refused, the batched phase ends with the
    watchpoints parked; when the internal breakpoint is refused, the call
    ends on the assertion about the breakpoint, with its temporary
    watchpoint at 0x9366 left behind. *)
Lemma tables_at_every_exit_witness :
  let no_watchpoint :=
    fun (_ _ : Z) (_ : WatchType) (_ : Task) => false in
  let no_breakpoint := fun (_ : Z) (_ : TrapType) (_ : Task) => false in
  let cpu := RefCpu.cpu 5000 in
  let t1 := next_stop cpu RESUME_SINGLESTEP RefCpu.s1_task in
  let r :=
    fast_forward_through_instruction RefCpu.SIGTRAP RefCpu.DS_WATCHPOINT_ANY
      [] cpu RefCpu.watchpoint_fits no_breakpoint 2 [] RefCpu.s1_task in
  batched_phase RefCpu.SIGTRAP RefCpu.DS_WATCHPOINT_ANY cpu no_watchpoint
    RefCpu.breakpoint_fits 0x1000 (mkDecoded 1 2 false) 999 1 997 998 t1
  = Abort AssertWatchpointAdded (parked 0x9366 t1) /\
  batched_phase RefCpu.SIGTRAP RefCpu.DS_WATCHPOINT_ANY cpu
    RefCpu.watchpoint_fits no_breakpoint 0x1000 (mkDecoded 1 2 false)
    999 1 997 998 t1
  = Abort AssertBreakpointAdded (watching 0x9366 t1) /\
  verdict r = Aborted AssertBreakpointAdded /\
  exists watch_di,
    vm (result_task r) = watching_tables watch_di (vm RefCpu.s1_task).
Proof.
  cbn zeta. split; [|split; [|split]].
  - pose proof (proj1 (proj2
                  (tables_at_every_exit RefCpu.SIGTRAP
                     RefCpu.DS_WATCHPOINT_ANY [] (RefCpu.cpu 5000)
                     (fun _ _ _ _ => false) RefCpu.breakpoint_fits 0 []
                     (next_stop (RefCpu.cpu 5000) RESUME_SINGLESTEP
                        RefCpu.s1_task)
                     0x1000 (mkDecoded 1 2 false) 999 1 997 998))) as H.
    cbn zeta in H. rewrite (H eq_refl). do 2 f_equal.
  - pose proof (proj2 (proj2
                  (tables_at_every_exit RefCpu.SIGTRAP
                     RefCpu.DS_WATCHPOINT_ANY [] (RefCpu.cpu 5000)
                     RefCpu.watchpoint_fits (fun _ _ _ => false) 0 []
                     (next_stop (RefCpu.cpu 5000) RESUME_SINGLESTEP
                        RefCpu.s1_task)
                     0x1000 (mkDecoded 1 2 false) 999 1 997 998))) as H.
    cbn zeta in H. rewrite (H eq_refl eq_refl). do 2 f_equal.
  - vm_compute. reflexivity.
  - pose proof (proj1 (tables_at_every_exit RefCpu.SIGTRAP
                         RefCpu.DS_WATCHPOINT_ANY [] (RefCpu.cpu 5000)
                         RefCpu.watchpoint_fits (fun _ _ _ => false) 2 []
                         RefCpu.s1_task
                         0 (mkDecoded 1 2 false) 0 0 0 0)) as H.
    cbn zeta in H.
    match type of H with
    | tables_at_exit _ (verdict ?r) _ =>
      assert (verdict r = Aborted AssertBreakpointAdded) as V
        by (vm_compute; reflexivity)
    end.
    rewrite V in H. exact H.
Defined.

(** A computation with a value ended in its result task. *)
Lemma valued_result {A} (r : Res A) (a : A) :
  result_value r = Some a -> r = Ok a (result_task r).
Proof. destruct r; cbn; intro H; congruence. Qed.

(** The first round of the scan ends in the flag exit at CX = 699 and
    goes round again. *)
Lemma retry_unwinds_flag_instruction_witness :
  let t1 := next_stop (RefCpu.cpu 5000) RESUME_SINGLESTEP RefCpu.scan_task in
  let r := round RefCpu.SIGTRAP RefCpu.DS_WATCHPOINT_ANY (RefCpu.cpu 5000)
             RefCpu.watchpoint_fits RefCpu.breakpoint_fits
             0x1000 (mkDecoded 1 2 true) [] [] t1 in
  let exit_state := mkRegs 0x1002 699 0 0x912D 0x41 0x40 in
  result_value r = Some (Some ([exit_state], [exit_state])) /\
  regs (result_task r) = regs t1 /\
  vm (result_task r) = vm t1.
Proof.
  intros t1 r exit_state.
  assert (result_value r = Some (Some ([exit_state], [exit_state]))) as V
    by (vm_compute; reflexivity).
  split; [exact V|].
  apply valued_result in V.
  destruct (retry_unwinds_flag_instruction RefCpu.SIGTRAP
              RefCpu.DS_WATCHPOINT_ANY (RefCpu.cpu 5000)
              RefCpu.watchpoint_fits RefCpu.breakpoint_fits 0x1000
              (mkDecoded 1 2 true) [] [] [exit_state] [exit_state]
              t1 (result_task r)) as (_ & _ & Hr & Hvm).
  - vm_compute. reflexivity.
  - exact V.
  - split; assumption.
Defined.

(** Three single-steps of the copy use up a count of three. *)
Lemma tail_phase_exit_witness :
  let r := tail_phase RefCpu.SIGTRAP RefCpu.DS_WATCHPOINT_ANY
             (RefCpu.cpu 5000) 3 0x1000 3 RefCpu.s1_task in
  result_value r = Some 0 /\
  (0 = 0 \/ ip (regs (result_task r)) <> 0x1000).
Proof.
  intro r.
  assert (result_value r = Some 0) as V by (vm_compute; reflexivity).
  split; [exact V|].
  apply valued_result in V.
  apply (tail_phase_exit RefCpu.SIGTRAP RefCpu.DS_WATCHPOINT_ANY
           (RefCpu.cpu 5000) 0x1000 3 3 RefCpu.s1_task (result_task r) 0).
  - lia.
  - cbn. lia.
  - exact V.
Defined.
